(** * pkg/symbol/elfutils: a shallow embedding of elfutils.go

    The detectors ([HasDWARF], [IsSymbolizableGoObjFile], [IsGoObjFile],
    [HasSymbols], [ValidateFile]) are functions of what [elf.Open] returns
    for a path; [ValidateHeader] is a function of the bytes an [io.Reader]
    delivers.  Go strings are byte strings, as are Rocq's; the Go maps used
    as sets are stdpp's [gmap] and [gset]; fixed-width integers are [Z] with
    their conversions written out. *)

From Stdlib Require Import ZArith Strings.Byte.
From stdpp Require Import base option list strings gmap.

Local Open Scope string_scope.
Local Open Scope list_scope.
Local Open Scope Z_scope.

(** ** Go errors *)

(** An argument of a [fmt.Errorf] verb. *)
Inductive Arg : Type :=
  | ABytes (bs : list byte)   (* %s of a []byte *)
  | AInt (n : Z)              (* %d of an int *)
  | AClass (c : Z)            (* %s of an elf.Class *)
  | AData (d : Z)             (* %s of an elf.Data *)
  | AVersion (v : Z).         (* %s of an elf.Version *)

(** Error values: the sentinels of [io] and [debug/elf], an error produced
    inside a library call (a failing reader, a file that does not open),
    [errors.New], [fmt.Errorf] with its verbs, and [fmt.Errorf] wrapping an
    error with [%w]. *)
Inductive error : Type :=
  | io_EOF
  | io_ErrUnexpectedEOF
  | elf_ErrNoSymbols
  | lib_error (msg : string)
  | errors_New (msg : string)
  | fmt_Errorf (format : string) (args : list Arg)
  | fmt_Errorf_w (format : string) (e : error).

Inductive result (A : Type) : Type :=
  | Ok (a : A)
  | Err (e : error).
Arguments Ok {A} a.
Arguments Err {A} e.

(** The error monad of the early returns [if err != nil { return err }];
    stdpp's notation [x ← r; k] binds in it. *)
#[global] Instance result_ret : MRet result := λ A a, Ok a.
#[global] Instance result_bind : MBind result := λ A B k r,
  match r with
  | Ok a => k a
  | Err e => Err e
  end.

(** ** debug/elf: the object model *)

Definition SectionType := Z.
Definition SHT_PROGBITS : SectionType := 1.
Definition SHT_SYMTAB : SectionType := 2.
Definition SHT_NOTE : SectionType := 7.
Definition SHT_NOBITS : SectionType := 8.
Definition SHT_DYNSYM : SectionType := 11.

Record elf_Section : Type := mkSection {
  Name : string;
  SType : SectionType
}.

Record elf_Symbol : Type := mkSymbol {
  SymName : string;
  SymSection : Z
}.

(** An opened file.  [symtab] is what decoding the SHT_SYMTAB section
    yields (the symbols, or the decoding error); it is looked at only
    through [elf_Symbols]. *)
Record elf_File : Type := mkFile {
  Sections : list elf_Section;
  symtab : result (list elf_Symbol)
}.

(** [File.Section]: the first section with the given name, or nil. *)
Definition elf_File_Section (f : elf_File) (name : string) : option elf_Section :=
  snd <$> list_find (λ s, Name s = name) (Sections f).

(** [File.SectionByType]: the first section of the given type, or nil. *)
Definition elf_File_SectionByType (f : elf_File) (t : SectionType) : option elf_Section :=
  snd <$> list_find (λ s, SType s = t) (Sections f).

(** [File.Symbols]: [ErrNoSymbols] when the file has no SHT_SYMTAB
    section, and otherwise the decoded symbol table. *)
Definition elf_Symbols (f : elf_File) : result (list elf_Symbol) :=
  match elf_File_SectionByType f SHT_SYMTAB with
  | None => Err elf_ErrNoSymbols
  | Some _ => symtab f
  end.

(** What [elf.Open] gives for each path. *)
Definition FileSystem := string → result elf_File.

Definition elf_Open (fs : FileSystem) (path : string) : result elf_File := fs path.

(** ** strings *)

Fixpoint strings_HasPrefix (s prefix : string) {struct prefix} : bool :=
  match prefix, s with
  | EmptyString, _ => true
  | String p ps, String c cs => Ascii.eqb c p && strings_HasPrefix cs ps
  | String _ _, EmptyString => false
  end.

(** [s[n:]]; the source slices only under [strings.HasPrefix], so [n] is
    never beyond the end of [s]. *)
Fixpoint slice_from (n : nat) (s : string) : string :=
  match n, s with
  | O, _ => s
  | S n', String _ cs => slice_from n' cs
  | S _, EmptyString => EmptyString
  end.

(** ** The detectors *)

Definition dwarfSuffix (s : elf_Section) : string :=
  if strings_HasPrefix (Name s) ".debug_" then slice_from 7 (Name s)
  else if strings_HasPrefix (Name s) ".zdebug_" then slice_from 8 (Name s)
  else if strings_HasPrefix (Name s) "__debug_" then slice_from 8 (Name s)
  else "".

(** The map literal of [readableDWARFSections]: five keys, each bound to a
    nil pointer. *)
Definition dwarf_sections : gmap string (option string) :=
  <["abbrev" := None]> (<["info" := None]> (<["str" := None]>
    (<["line" := None]> (<["ranges" := None]> ∅)))).

(** One iteration of the loop over [f.Sections]. *)
Definition readableDWARFSections_step (exists_ : gset string) (s : elf_Section)
    : gset string :=
  let suffix := dwarfSuffix s in
  if String.eqb suffix "" then exists_
  else if bool_decide (is_Some (dwarf_sections !! suffix)) then
    if Z.eqb (SType s) SHT_PROGBITS then {[ suffix ]} ∪ exists_ else exists_
  else exists_.

Definition readableDWARFSections (f : elf_File) : result (gset string) :=
  Ok (foldl readableDWARFSections_step ∅ (Sections f)).

Section Detectors.

Variable fs : FileSystem.

Definition HasDWARF (path : string) : bool * option error :=
  match elf_Open fs path with
  | Err err => (false, Some (fmt_Errorf_w "failed to open elf: %w" err))
  | Ok f =>
      match readableDWARFSections f with
      | Err err => (false, Some (fmt_Errorf_w "failed to read DWARF sections: %w" err))
      | Ok sections => (bool_decide (0 < size sections)%nat, None)
      end
  end.

(** The first loop of [IsSymbolizableGoObjFile]. *)
Definition has_buildid_note (f : elf_File) : bool :=
  foldl (λ isGo s, if String.eqb (Name s) ".note.go.buildid" then true else isGo)
        false (Sections f).

(** The loop over the symbols. *)
Definition scan_symbols (isGo : bool) (syms : list elf_Symbol) : bool :=
  foldl (λ isGo sym,
           let name := SymName sym in
           let isGo := if String.eqb name "runtime.main" || String.eqb name "main.main"
                       then true else isGo in
           if String.eqb name "runtime.buildVersion" then true else isGo)
        isGo syms.

Definition IsSymbolizableGoObjFile (path : string) : bool * option error :=
  match elf_Open fs path with
  | Err err => (false, Some (fmt_Errorf_w "failed to open elf: %w" err))
  | Ok f =>
      let isGo := has_buildid_note f in
      let checked :=
        if negb isGo then
          match elf_Symbols f with
          | Err err => Err (fmt_Errorf_w "failed to read symbols: %w" err)
          | Ok syms => Ok (scan_symbols isGo syms)
          end
        else Ok isGo in
      match checked with
      | Err e => (false, Some e)
      | Ok isGo =>
          if negb isGo then (false, None)
          else
            match elf_File_Section f ".gopclntab" with
            | Some sec =>
                if Z.eqb (SType sec) SHT_PROGBITS then (true, None)
                else (false, Some (errors_New
                       "failed to detect .gopclntab section or section has no bits"))
            | None => (false, Some (errors_New
                       "failed to detect .gopclntab section or section has no bits"))
            end
      end
  end.

Definition IsGoObjFile (path : string) : bool * option error :=
  match elf_Open fs path with
  | Err err => (false, Some (fmt_Errorf_w "failed to open elf: %w" err))
  | Ok f => (existsb (λ s, String.eqb (Name s) ".note.go.buildid") (Sections f), None)
  end.

Definition HasSymbols (path : string) : bool * option error :=
  match elf_Open fs path with
  | Err err => (false, Some (fmt_Errorf_w "failed to open elf: %w" err))
  | Ok ef =>
      (existsb (λ section, Z.eqb (SType section) SHT_SYMTAB
                           || Z.eqb (SType section) SHT_DYNSYM) (Sections ef), None)
  end.

Definition ValidateFile (path : string) : option error :=
  match elf_Open fs path with
  | Err err => Some err
  | Ok elfFile =>
      if Nat.eqb (length (Sections elfFile)) 0
      then Some (errors_New "ELF does not have any sections")
      else None
  end.

End Detectors.

(** ** io, bytes, limitio, encoding/binary: what [ValidateHeader] calls *)

#[global] Instance byte_inhabited : Inhabited byte := populate x00.

Definition byte_val (b : byte) : Z := Z.of_N (Byte.to_N b).

(** A reader delivers the bytes of [stream] and then ends: with [io.EOF]
    when [broken] is [None], with an error of its own otherwise, returned
    by the read that follows the last byte.  A reader that returns its
    error in the same call as its last bytes behaves the same unless these
    are exactly the bytes a limit allows: then the error is seen, which
    this record does not express. *)
Record Reader : Type := mkReader {
  stream : list byte;
  broken : option string
}.

Definition bytes_NewReader (b : list byte) : Reader := mkReader b None.

(** [io.LimitReader r n]: ends with [io.EOF] after [n] bytes, without
    reading [r] further. *)
Definition io_LimitReader (r : Reader) (n : nat) : Reader :=
  if decide (n ≤ length (stream r))%nat then mkReader (take n (stream r)) None else r.

(** [io.ReadAll]: everything up to the end; [io.EOF] is not an error. *)
Definition io_ReadAll (r : Reader) : list byte * option error :=
  (stream r, lib_error <$> broken r).

(** [limitio.Writer.Write] in silent mode: bytes beyond the limit are
    dropped and the write succeeds. *)
Definition limitio_Write (limit : nat) (buf p : list byte) : list byte :=
  buf ++ take (limit - length buf) p.

(** [bytes.Buffer.Read]: an empty buffer gives [io.EOF] (unless the
    destination is empty); otherwise the bytes present are copied to the
    front of the destination and the read succeeds, however few they are. *)
Definition bytes_Buffer_Read (buf p : list byte) : list byte * option error :=
  match buf with
  | [] => (p, if decide (length p = 0%nat) then None else Some io_EOF)
  | _ => (take (length p) buf ++ drop (length buf) p, None)
  end.

(** [io.ReadFull] into a buffer of [n] bytes. *)
Definition io_ReadFull (r : Reader) (n : nat) : result (list byte) :=
  if decide (n ≤ length (stream r))%nat then Ok (take n (stream r))
  else match broken r with
       | Some msg => Err (lib_error msg)
       | None => if decide (length (stream r) = 0%nat) then Err io_EOF
                 else Err io_ErrUnexpectedEOF
       end.

Inductive ByteOrder : Type := LittleEndian | BigEndian.

(** The value of [b[i]]. *)
Definition at_ (b : list byte) (i : nat) : Z := byte_val (b !!! i).

Definition Uint16 (o : ByteOrder) (b : list byte) : Z :=
  match o with
  | LittleEndian => Z.lor (at_ b 0) (Z.shiftl (at_ b 1) 8)
  | BigEndian => Z.lor (at_ b 1) (Z.shiftl (at_ b 0) 8)
  end.

Definition Uint32 (o : ByteOrder) (b : list byte) : Z :=
  match o with
  | LittleEndian =>
      Z.lor (Z.lor (Z.lor (at_ b 0) (Z.shiftl (at_ b 1) 8)) (Z.shiftl (at_ b 2) 16))
            (Z.shiftl (at_ b 3) 24)
  | BigEndian =>
      Z.lor (Z.lor (Z.lor (at_ b 3) (Z.shiftl (at_ b 2) 8)) (Z.shiftl (at_ b 1) 16))
            (Z.shiftl (at_ b 0) 24)
  end.

Definition Uint64 (o : ByteOrder) (b : list byte) : Z :=
  match o with
  | LittleEndian =>
      Z.lor (Z.lor (Z.lor (Z.lor (Z.lor (Z.lor (Z.lor
        (at_ b 0) (Z.shiftl (at_ b 1) 8)) (Z.shiftl (at_ b 2) 16)) (Z.shiftl (at_ b 3) 24))
        (Z.shiftl (at_ b 4) 32)) (Z.shiftl (at_ b 5) 40)) (Z.shiftl (at_ b 6) 48))
        (Z.shiftl (at_ b 7) 56)
  | BigEndian =>
      Z.lor (Z.lor (Z.lor (Z.lor (Z.lor (Z.lor (Z.lor
        (at_ b 7) (Z.shiftl (at_ b 6) 8)) (Z.shiftl (at_ b 5) 16)) (Z.shiftl (at_ b 4) 24))
        (Z.shiftl (at_ b 3) 32)) (Z.shiftl (at_ b 2) 40)) (Z.shiftl (at_ b 1) 48))
        (Z.shiftl (at_ b 0) 56)
  end.

(** [elf.Header32] and [elf.Header64], field by field. *)
Record Header32 : Type := mkHeader32 {
  Ident32 : list byte;  Type32 : Z;      Machine32 : Z;   Version32 : Z;
  Entry32 : Z;          Phoff32 : Z;     Shoff32 : Z;     Flags32 : Z;
  Ehsize32 : Z;         Phentsize32 : Z; Phnum32 : Z;     Shentsize32 : Z;
  Shnum32 : Z;          Shstrndx32 : Z
}.

Record Header64 : Type := mkHeader64 {
  Ident64 : list byte;  Type64 : Z;      Machine64 : Z;   Version64 : Z;
  Entry64 : Z;          Phoff64 : Z;     Shoff64 : Z;     Flags64 : Z;
  Ehsize64 : Z;         Phentsize64 : Z; Phnum64 : Z;     Shentsize64 : Z;
  Shnum64 : Z;          Shstrndx64 : Z
}.

Definition Header32_size : nat := 52.
Definition Header64_size : nat := 64.

Definition decode_Header32 (o : ByteOrder) (bs : list byte) : Header32 :=
  {| Ident32 := take 16 bs;
     Type32 := Uint16 o (drop 16 bs);      Machine32 := Uint16 o (drop 18 bs);
     Version32 := Uint32 o (drop 20 bs);   Entry32 := Uint32 o (drop 24 bs);
     Phoff32 := Uint32 o (drop 28 bs);     Shoff32 := Uint32 o (drop 32 bs);
     Flags32 := Uint32 o (drop 36 bs);     Ehsize32 := Uint16 o (drop 40 bs);
     Phentsize32 := Uint16 o (drop 42 bs); Phnum32 := Uint16 o (drop 44 bs);
     Shentsize32 := Uint16 o (drop 46 bs); Shnum32 := Uint16 o (drop 48 bs);
     Shstrndx32 := Uint16 o (drop 50 bs) |}.

Definition decode_Header64 (o : ByteOrder) (bs : list byte) : Header64 :=
  {| Ident64 := take 16 bs;
     Type64 := Uint16 o (drop 16 bs);      Machine64 := Uint16 o (drop 18 bs);
     Version64 := Uint32 o (drop 20 bs);   Entry64 := Uint64 o (drop 24 bs);
     Phoff64 := Uint64 o (drop 32 bs);     Shoff64 := Uint64 o (drop 40 bs);
     Flags64 := Uint32 o (drop 48 bs);     Ehsize64 := Uint16 o (drop 52 bs);
     Phentsize64 := Uint16 o (drop 54 bs); Phnum64 := Uint16 o (drop 56 bs);
     Shentsize64 := Uint16 o (drop 58 bs); Shnum64 := Uint16 o (drop 60 bs);
     Shstrndx64 := Uint16 o (drop 62 bs) |}.

(** [binary.Read] into a header: [io.ReadFull] of the struct's size, then
    the fields in order. *)
Definition binary_Read32 (r : Reader) (o : ByteOrder) : result Header32 :=
  bs ← io_ReadFull r Header32_size; Ok (decode_Header32 o bs).

Definition binary_Read64 (r : Reader) (o : ByteOrder) : result Header64 :=
  bs ← io_ReadFull r Header64_size; Ok (decode_Header64 o bs).

(** Conversions between the integer types involved. *)
Definition elf_Version (v : Z) : Z := v mod 256.          (* elf.Version is a byte *)
Definition int64 (v : Z) : Z := if v <? 2 ^ 63 then v else v - 2 ^ 64.

Definition EI_CLASS : nat := 4.
Definition EI_DATA : nat := 5.
Definition EI_VERSION : nat := 6.
Definition ELFCLASS32 : Z := 1.
Definition ELFCLASS64 : Z := 2.
Definition ELFDATA2LSB : Z := 1.
Definition ELFDATA2MSB : Z := 2.
Definition EV_CURRENT : Z := 1.

(** [return e] when [cond] holds. *)
Definition fail_if (cond : bool) (e : error) : result unit :=
  if cond then Err e else Ok ().

Definition of_pair {A} (p : A * option error) : result A :=
  match p.2 with
  | Some e => Err e
  | None => Ok p.1
  end.

(** ** ValidateHeader *)

Definition ValidateHeader_run (r : Reader) : result unit :=
  (* r = io.TeeReader(io.LimitReader(r, 64), w); b, err := io.ReadAll(r) *)
  let rd := io_ReadAll (io_LimitReader r 64) in
  let buf := limitio_Write 16 [] rd.1 in
  b ← of_pair rd;
  let r := bytes_NewReader b in
  ident ← of_pair (bytes_Buffer_Read buf (replicate 16 x00));
  fail_if (negb (Byte.eqb (ident !!! 0%nat) x7f) || negb (Byte.eqb (ident !!! 1%nat) x45)
           || negb (Byte.eqb (ident !!! 2%nat) x4c) || negb (Byte.eqb (ident !!! 3%nat) x46))
          (fmt_Errorf "invalid magic number, %s" [ABytes (take 4 ident)]);;
  let c := byte_val (ident !!! EI_CLASS) in
  fail_if (negb (c =? ELFCLASS32) && negb (c =? ELFCLASS64))
          (fmt_Errorf "unknown ELF class, %s" [AClass c]);;
  let d := byte_val (ident !!! EI_DATA) in
  byteOrder ← (if d =? ELFDATA2LSB then Ok LittleEndian
               else if d =? ELFDATA2MSB then Ok BigEndian
               else Err (fmt_Errorf "unknown ELF data encoding, %s" [AData d]));
  let fv := byte_val (ident !!! EI_VERSION) in
  fail_if (negb (fv =? EV_CURRENT)) (fmt_Errorf "unknown ELF version, %s" [AVersion fv]);;
  (* Read ELF file header. *)
  '(shoff, shnum, shstrndx) ←
    (if c =? ELFCLASS32 then
       hdr ← binary_Read32 (io_LimitReader r 52) byteOrder;
       let v := elf_Version (Version32 hdr) in
       fail_if (negb (v =? fv)) (fmt_Errorf "invalid ELF version, %s" [AVersion v]);;
       Ok (Shoff32 hdr, Shnum32 hdr, Shstrndx32 hdr)
     else if c =? ELFCLASS64 then
       hdr ← binary_Read64 r byteOrder;
       let v := elf_Version (Version64 hdr) in
       fail_if (negb (v =? fv)) (fmt_Errorf "invalid ELF version, %s" [AVersion v]);;
       Ok (int64 (Shoff64 hdr), Shnum64 hdr, Shstrndx64 hdr)
     else Ok (0, 0, 0));
  fail_if ((shoff =? 0) && negb (shnum =? 0))
          (fmt_Errorf "invalid ELF file, shoff is 0 but shnum is %d" [AInt shnum]);;
  fail_if ((0 <? shnum) && (shnum <=? shstrndx))
          (fmt_Errorf "invalid ELF file, shstrndx is %d but shnum is %d"
                      [AInt shstrndx; AInt shnum]);;
  fail_if (shnum <=? 0) (fmt_Errorf "elf file has no sections" []);;
  Ok ().

(** The returned [error]; [None] is [nil]. *)
Definition ValidateHeader (r : Reader) : option error :=
  match ValidateHeader_run r with
  | Ok _ => None
  | Err e => Some e
  end.

(** * The vocabulary of the properties, and sample inputs *)

(** ** Detectors *)

(** The three prefixes [dwarfSuffix] strips, and the five kinds
    [readableDWARFSections] keeps. *)
Definition debug_prefixes : list string := [".debug_"; ".zdebug_"; "__debug_"].
Definition dwarf_kinds : list string := ["abbrev"; "info"; "str"; "line"; "ranges"].

(** A section that counts as DWARF: a debug prefix followed by one of the
    five kinds, of type SHT_PROGBITS. *)
Definition is_DWARF_section (s : elf_Section) : Prop :=
  ∃ p k, p ∈ debug_prefixes ∧ k ∈ dwarf_kinds ∧ Name s = p +:+ k ∧ SType s = SHT_PROGBITS.

(** A file system with one file, "a.out". *)
Definition one_file (f : elf_File) : FileSystem :=
  λ p, if String.eqb p "a.out" then Ok f else Err (lib_error "no such file").

Definition debug_info_file : elf_File :=
  mkFile [mkSection ".text" SHT_PROGBITS; mkSection ".debug_info" SHT_PROGBITS]
         (Err elf_ErrNoSymbols).

(** A Go binary with its note section; [st] is what reading its symbols gives. *)
Definition go_note_file (st : result (list elf_Symbol)) : elf_File :=
  mkFile [mkSection ".text" SHT_PROGBITS; mkSection ".note.go.buildid" SHT_NOTE] st.

Definition dynsym_file : elf_File :=
  mkFile [mkSection ".text" SHT_PROGBITS; mkSection ".dynsym" SHT_DYNSYM]
         (Err elf_ErrNoSymbols).

Definition empty_file : elf_File := mkFile [] (Err elf_ErrNoSymbols).

(** The symbols [IsSymbolizableGoObjFile] looks for. *)
Definition go_symbol_names : list string :=
  ["runtime.main"; "main.main"; "runtime.buildVersion"].

(** The error of a Go binary without a usable ".gopclntab". *)
Definition NotSymbolizableError : error :=
  errors_New "failed to detect .gopclntab section or section has no bits".

Definition has_note (f : elf_File) : Prop :=
  ∃ s, s ∈ Sections f ∧ Name s = ".note.go.buildid".

Definition has_go_symbol (f : elf_File) : Prop :=
  ∃ syms sym, elf_Symbols f = Ok syms ∧ sym ∈ syms ∧ SymName sym ∈ go_symbol_names.

(** Classified as produced by the Go toolchain: by the note section or by
    one of the three symbols. *)
Definition toolchain_produced (f : elf_File) : Prop := has_note f ∨ has_go_symbol f.

(** Some section is named ".gopclntab" and has type SHT_PROGBITS. *)
Definition has_loaded_gopclntab (f : elf_File) : Prop :=
  ∃ s, s ∈ Sections f ∧ Name s = ".gopclntab" ∧ SType s = SHT_PROGBITS.

(** The first section named ".gopclntab" has type SHT_PROGBITS. *)
Definition first_gopclntab_loaded (f : elf_File) : Prop :=
  ∃ sec, elf_File_Section f ".gopclntab" = Some sec ∧ SType sec = SHT_PROGBITS.

Definition is_go_symbol (sym : elf_Symbol) : bool :=
  String.eqb (SymName sym) "runtime.main" || String.eqb (SymName sym) "main.main"
  || String.eqb (SymName sym) "runtime.buildVersion".

(** The verdict once the file counts as toolchain-produced. *)
Definition gopclntab_verdict (f : elf_File) : bool * option error :=
  match elf_File_Section f ".gopclntab" with
  | Some sec => if SType sec =? SHT_PROGBITS then (true, None)
                else (false, Some NotSymbolizableError)
  | None => (false, Some NotSymbolizableError)
  end.

(** The three outcomes of [IsSymbolizableGoObjFile] as its description
    lists them. *)
Definition three_outcomes (fs : FileSystem) (path : string) (f : elf_File) : Prop :=
  (¬ toolchain_produced f → IsSymbolizableGoObjFile fs path = (false, None)) ∧
  (toolchain_produced f → has_loaded_gopclntab f →
     IsSymbolizableGoObjFile fs path = (true, None)) ∧
  (toolchain_produced f → ¬ has_loaded_gopclntab f →
     IsSymbolizableGoObjFile fs path = (false, Some NotSymbolizableError)).

(** A stripped binary: no note section, no symbol table. *)
Definition stripped_file : elf_File :=
  mkFile [mkSection ".text" SHT_PROGBITS; mkSection ".gopclntab" SHT_PROGBITS]
         (Err elf_ErrNoSymbols).

(** A Go binary with two sections named ".gopclntab", the first without bits. *)
Definition twice_gopclntab_file : elf_File :=
  mkFile [mkSection ".note.go.buildid" SHT_NOTE; mkSection ".gopclntab" SHT_NOBITS;
          mkSection ".gopclntab" SHT_PROGBITS]
         (Err elf_ErrNoSymbols).

(** A Go binary without the note section, recognised by a symbol. *)
Definition go_symbol_file : elf_File :=
  mkFile [mkSection ".text" SHT_PROGBITS; mkSection ".symtab" SHT_SYMTAB;
          mkSection ".gopclntab" SHT_PROGBITS]
         (Ok [mkSymbol "runtime.main" 1]).

(** ** ValidateHeader *)

(** The identification bytes the checks look at: the first 16 bytes read,
    padded with zeros when fewer were read. *)
Definition ident_of (b : list byte) : list byte :=
  take 16 b ++ replicate (16 - length b) x00.

Definition magic : list byte := [x7f; x45; x4c; x46].

(** A well-formed 64-bit little-endian header with the given (one-byte)
    section count and string-table index. *)
Definition header64_bytes (shnum shstrndx : byte) : list byte :=
  [x7f; x45; x4c; x46; x02; x01; x01; x00; x00; x00; x00; x00; x00; x00; x00; x00;
   x02; x00; x3e; x00; x01; x00; x00; x00;
   x00; x10; x40; x00; x00; x00; x00; x00;
   x40; x00; x00; x00; x00; x00; x00; x00;
   x00; x02; x00; x00; x00; x00; x00; x00;
   x00; x00; x00; x00; x40; x00; x38; x00; x02; x00; x40; x00;
   shnum; x00; shstrndx; x00].

(** The kinds of error of the validator: a read error is an error of
    reading the stream; a format error reports a field of the
    identification or of the header holding a value that is not accepted. *)
Definition is_ReadError (e : error) : bool :=
  match e with
  | io_EOF | io_ErrUnexpectedEOF | lib_error _ => true
  | _ => false
  end.

Definition format_error_formats : list string :=
  ["invalid magic number, %s"; "unknown ELF class, %s"; "unknown ELF data encoding, %s";
   "unknown ELF version, %s"; "invalid ELF version, %s"].

Definition is_FormatError (e : error) : bool :=
  match e with
  | fmt_Errorf format _ => bool_decide (format ∈ format_error_formats)
  | _ => false
  end.

(** The size of the header for a class byte. *)
Definition header_size (c : Z) : nat :=
  if c =? ELFCLASS32 then Header32_size else Header64_size.

#[global] Instance byte_eq_dec : EqDecision byte := Byte.byte_eq_dec.

(** The identification checks on the bytes present, absent bytes counting
    as zero. *)
Definition ident_valid (s : list byte) : bool :=
  bool_decide (take 4 s = magic)
  && ((at_ s EI_CLASS =? ELFCLASS32) || (at_ s EI_CLASS =? ELFCLASS64))
  && ((at_ s EI_DATA =? ELFDATA2LSB) || (at_ s EI_DATA =? ELFDATA2MSB))
  && (at_ s EI_VERSION =? EV_CURRENT).

(** The same header under the magic of another format. *)
Definition bad_magic_bytes : list byte := x4d :: x5a :: drop 2 (header64_bytes x03 x02).

(** ** ValidateHeader in stages *)

(** The byte order [ValidateHeader] selects for a data-encoding byte that
    passed its check. *)
Definition byte_order_of (d : Z) : ByteOrder :=
  if d =? ELFDATA2MSB then BigEndian else LittleEndian.

(** The error of the first identification check that fails on the bytes
    read, [None] when all four pass. *)
Definition ident_error (b : list byte) : option error :=
  if negb (bool_decide (take 4 b = magic))
  then Some (fmt_Errorf "invalid magic number, %s" [ABytes (take 4 (ident_of b))])
  else if negb (at_ b EI_CLASS =? ELFCLASS32) && negb (at_ b EI_CLASS =? ELFCLASS64)
  then Some (fmt_Errorf "unknown ELF class, %s" [AClass (at_ b EI_CLASS)])
  else if negb (at_ b EI_DATA =? ELFDATA2LSB) && negb (at_ b EI_DATA =? ELFDATA2MSB)
  then Some (fmt_Errorf "unknown ELF data encoding, %s" [AData (at_ b EI_DATA)])
  else if negb (at_ b EI_VERSION =? EV_CURRENT)
  then Some (fmt_Errorf "unknown ELF version, %s" [AVersion (at_ b EI_VERSION)])
  else None.

(** The four header fields the checks use, (Version, Shoff, Shnum,
    Shstrndx), decoded from the header of the class in the byte order of
    the data encoding. *)
Definition header_fields (b : list byte) : Z * Z * Z * Z :=
  let o := byte_order_of (at_ b EI_DATA) in
  if at_ b EI_CLASS =? ELFCLASS32 then
    let h := decode_Header32 o (take Header32_size b) in
    (Version32 h, Shoff32 h, Shnum32 h, Shstrndx32 h)
  else
    let h := decode_Header64 o (take Header64_size b) in
    (Version64 h, Shoff64 h, Shnum64 h, Shstrndx64 h).

(** The checks on the decoded fields, in the order of the source. *)
Definition header_rules (fields : Z * Z * Z * Z) : option error :=
  let '(version, shoff, shnum, shstrndx) := fields in
  if negb (elf_Version version =? EV_CURRENT)
  then Some (fmt_Errorf "invalid ELF version, %s" [AVersion (elf_Version version)])
  else if (shoff =? 0) && negb (shnum =? 0)
  then Some (fmt_Errorf "invalid ELF file, shoff is 0 but shnum is %d" [AInt shnum])
  else if (0 <? shnum) && (shnum <=? shstrndx)
  then Some (fmt_Errorf "invalid ELF file, shstrndx is %d but shnum is %d"
                        [AInt shstrndx; AInt shnum])
  else if shnum <=? 0 then Some (fmt_Errorf "elf file has no sections" [])
  else None.

(** The verdict on the bytes read, stage by stage: identification, length
    of the header, fields. *)
Definition staged_verdict (b : list byte) : option error :=
  match ident_error b with
  | Some e => Some e
  | None =>
      if decide (length b < header_size (at_ b EI_CLASS))%nat
      then Some io_ErrUnexpectedEOF
      else header_rules (header_fields b)
  end.

(** A well-formed 32-bit big-endian header of 52 bytes with the given
    (one-byte) section count and string-table index. *)
Definition header32_bytes (shnum shstrndx : byte) : list byte :=
  [x7f; x45; x4c; x46; x01; x02; x01; x00; x00; x00; x00; x00; x00; x00; x00; x00;
   x00; x02; x00; x08; x00; x00; x00; x01;
   x00; x40; x10; x00; x00; x00; x00; x34; x00; x00; x02; x00; x00; x00; x00; x00;
   x00; x34; x00; x20; x00; x02; x00; x28; x00; shnum; x00; shstrndx].

(** * Properties *)

(** ** strings *)

Lemma strings_HasPrefix_app (p k : string) : strings_HasPrefix (p +:+ k) p = true.
Proof.
  induction p as [|c p IH]; simpl; [done|].
  by rewrite Ascii.eqb_refl, IH.
Qed.

Lemma strings_HasPrefix_inv (p s : string) :
  strings_HasPrefix s p = true → s = p +:+ slice_from (String.length p) s.
Proof.
  revert s. induction p as [|c p IH]; intros [|d s]; simpl; try done.
  intros [Hc Hp]%andb_true_iff. apply Ascii.eqb_eq in Hc as ->.
  change (String c s = String c (p +:+ slice_from (String.length p) s)).
  f_equal. by apply IH.
Qed.

Lemma slice_from_app (p k : string) : slice_from (String.length p) (p +:+ k) = k.
Proof. induction p; simpl; auto. Qed.

(** Membership in a list given by its elements. *)
Ltac in_list := by repeat first [ apply list_elem_of_here | apply list_elem_of_further ].
Ltac list_cases H :=
  repeat (apply elem_of_cons in H as [H|H]; [try subst|]); [..|by apply elem_of_nil in H].

(** ** The DWARF detector *)

Example dwarfSuffix_debug : dwarfSuffix (mkSection ".debug_info" SHT_PROGBITS) = "info".
Proof. reflexivity. Qed.

Example dwarfSuffix_zdebug : dwarfSuffix (mkSection ".zdebug_line" SHT_PROGBITS) = "line".
Proof. reflexivity. Qed.

Example dwarfSuffix_other : dwarfSuffix (mkSection ".text" SHT_PROGBITS) = "".
Proof. reflexivity. Qed.

Example HasDWARF_nobits :
  HasDWARF (one_file (mkFile [mkSection ".debug_info" SHT_NOBITS] (Err elf_ErrNoSymbols)))
           "a.out" = (false, None).
Proof. reflexivity. Qed.

Lemma dwarf_sections_lookup (k : string) :
  is_Some (dwarf_sections !! k) ↔ k ∈ dwarf_kinds.
Proof.
  unfold dwarf_sections, dwarf_kinds.
  rewrite <- elem_of_dom, !dom_insert_L, dom_empty_L.
  rewrite !elem_of_union, !elem_of_singleton, !elem_of_cons, elem_of_nil, elem_of_empty.
  tauto.
Qed.

Lemma dwarfSuffix_kind (s : elf_Section) :
  dwarfSuffix s ∈ dwarf_kinds ↔
  ∃ p k, p ∈ debug_prefixes ∧ k ∈ dwarf_kinds ∧ Name s = p +:+ k.
Proof.
  split.
  - unfold dwarfSuffix.
    destruct (strings_HasPrefix (Name s) ".debug_") eqn:H1;
      [|destruct (strings_HasPrefix (Name s) ".zdebug_") eqn:H2;
        [|destruct (strings_HasPrefix (Name s) "__debug_") eqn:H3]].
    + intros Hk. exists ".debug_", (slice_from 7 (Name s)).
      split_and!; [in_list | done | by apply (strings_HasPrefix_inv ".debug_")].
    + intros Hk. exists ".zdebug_", (slice_from 8 (Name s)).
      split_and!; [in_list | done | by apply (strings_HasPrefix_inv ".zdebug_")].
    + intros Hk. exists "__debug_", (slice_from 8 (Name s)).
      split_and!; [in_list | done | by apply (strings_HasPrefix_inv "__debug_")].
    + unfold dwarf_kinds. intros Hk. list_cases Hk; done.
  - intros (p & k & Hp & Hk & Hn). unfold dwarfSuffix. rewrite Hn.
    unfold debug_prefixes in Hp.
    list_cases Hp.
    + rewrite (strings_HasPrefix_app ".debug_").
      by rewrite (slice_from_app ".debug_").
    + change (strings_HasPrefix (".zdebug_" +:+ k) ".debug_") with false.
      rewrite (strings_HasPrefix_app ".zdebug_").
      by rewrite (slice_from_app ".zdebug_").
    + change (strings_HasPrefix ("__debug_" +:+ k) ".debug_") with false.
      change (strings_HasPrefix ("__debug_" +:+ k) ".zdebug_") with false.
      rewrite (strings_HasPrefix_app "__debug_").
      by rewrite (slice_from_app "__debug_").
Qed.

(** What one section contributes to the set built by the loop. *)
Lemma readableDWARFSections_step_elem (X : gset string) (s : elf_Section) (k : string) :
  k ∈ readableDWARFSections_step X s ↔
  k ∈ X ∨ (k = dwarfSuffix s ∧ k ∈ dwarf_kinds ∧ SType s = SHT_PROGBITS).
Proof.
  unfold readableDWARFSections_step.
  destruct (String.eqb_spec (dwarfSuffix s) "") as [He|He].
  { split; [auto|]. intros [?|(-> & Hk & _)]; [done|].
    rewrite He in Hk. unfold dwarf_kinds in Hk. list_cases Hk; done. }
  case_bool_decide as Hin; rewrite dwarf_sections_lookup in Hin.
  - destruct (Z.eqb_spec (SType s) SHT_PROGBITS) as [Ht|Ht].
    + rewrite elem_of_union, elem_of_singleton.
      split; [intros [->|?]; [right|left]|intros [?|(?&?&?)]; [right|left]]; done.
    + split; [auto|]. by intros [?|(?&?&?)].
  - split; [auto|]. by intros [?|(->&?&?)].
Qed.

Lemma readableDWARFSections_fold_elem (l : list elf_Section) (X : gset string) (k : string) :
  k ∈ foldl readableDWARFSections_step X l ↔
  k ∈ X ∨ ∃ s, s ∈ l ∧ k = dwarfSuffix s ∧ k ∈ dwarf_kinds ∧ SType s = SHT_PROGBITS.
Proof.
  revert X. induction l as [|s l IH]; intros X; simpl.
  - split; [auto|]. intros [?|(s & Hs & _)]; [done|]. by apply elem_of_nil in Hs.
  - rewrite IH, readableDWARFSections_step_elem. split.
    + intros [[?|?]|(s' & ? & ?)]; [by left|right..].
      * exists s. split; [in_list|done].
      * exists s'. split; [by apply list_elem_of_further|done].
    + intros [?|(s' & [->|?]%elem_of_cons & ?)]; [by left;left|by left;right|right].
      by exists s'.
Qed.

Lemma readableDWARFSections_nonempty (f : elf_File) :
  (0 < size (foldl readableDWARFSections_step ∅ (Sections f)))%nat ↔
  ∃ s, s ∈ Sections f ∧ is_DWARF_section s.
Proof.
  set (X := foldl _ _ _). split.
  - intros Hsz. destruct (decide (X = ∅)) as [HX|HX].
    { rewrite HX, size_empty in Hsz. lia. }
    apply set_choose_L in HX as [k Hk].
    apply readableDWARFSections_fold_elem in Hk as [Hk|(s & Hs & -> & Hk & Ht)].
    { by apply elem_of_empty in Hk. }
    exists s. split; [done|].
    apply dwarfSuffix_kind in Hk as (p & k & ? & ? & ?). by exists p, k.
  - intros (s & Hs & p & k & Hp & Hk & Hn & Ht).
    assert (dwarfSuffix s ∈ X) as Hin.
    { apply readableDWARFSections_fold_elem. right. exists s.
      split_and!; try done. apply dwarfSuffix_kind. by exists p, k. }
    destruct (decide (size X = 0%nat)) as [Hz|Hz]; [|lia].
    apply size_empty_inv in Hz. apply leibniz_equiv in Hz. rewrite Hz in Hin.
    by apply elem_of_empty in Hin.
Qed.

(** C1.  For a path that opens, [HasDWARF] returns no error, and returns
    true exactly when some section is named by one of the three debug
    prefixes followed by one of the five kinds and has type SHT_PROGBITS. *)
Theorem HasDWARF_iff (fs : FileSystem) (path : string) (f : elf_File) :
  elf_Open fs path = Ok f →
  ∃ b, HasDWARF fs path = (b, None) ∧
       (b = true ↔ ∃ s, s ∈ Sections f ∧ is_DWARF_section s).
Proof.
  intros Hopen. unfold HasDWARF. rewrite Hopen. simpl.
  eexists. split; [reflexivity|].
  rewrite bool_decide_eq_true. apply readableDWARFSections_nonempty.
Qed.

Lemma HasDWARF_iff_witness :
  ∃ b, HasDWARF (one_file debug_info_file) "a.out" = (b, None) ∧
       (b = true ↔ ∃ s, s ∈ Sections debug_info_file ∧ is_DWARF_section s).
Proof. apply (HasDWARF_iff (one_file debug_info_file) "a.out"). reflexivity. Defined.

(** ** The toolchain and symbol-table detectors *)

Lemma existsb_elem_of {A} (p : A → bool) (l : list A) :
  existsb p l = true ↔ ∃ x, x ∈ l ∧ p x = true.
Proof.
  rewrite existsb_exists. split; intros (x & Hx & Hp); exists x;
    (split; [by apply list_elem_of_In|done]).
Qed.

Lemma existsb_fmap {A B} (p : B → bool) (h : A → B) (l : list A) :
  existsb (p ∘ h) l = existsb p (h <$> l).
Proof. induction l as [|x l IH]; simpl; [done|]. by rewrite IH. Qed.

(** C5.  For a path that opens, [IsGoObjFile] returns no error, returns
    true exactly when some section is named ".note.go.buildid", and gives
    the same answer for any file with the same sections, whatever its
    symbols. *)
Theorem IsGoObjFile_iff (fs : FileSystem) (path : string) (f : elf_File) :
  elf_Open fs path = Ok f →
  ∃ b, IsGoObjFile fs path = (b, None) ∧
       (b = true ↔ ∃ s, s ∈ Sections f ∧ Name s = ".note.go.buildid") ∧
       (∀ fs' path' f', elf_Open fs' path' = Ok f' → Sections f' = Sections f →
                        IsGoObjFile fs' path' = (b, None)).
Proof.
  intros Hopen. unfold IsGoObjFile. rewrite Hopen.
  eexists. split_and!; [reflexivity| |].
  - rewrite existsb_elem_of. by setoid_rewrite String.eqb_eq.
  - intros fs' path' f' Hopen' Hsec. by rewrite Hopen', Hsec.
Qed.

Lemma IsGoObjFile_iff_witness :
  ∃ b, IsGoObjFile (one_file (go_note_file (Ok []))) "a.out" = (b, None) ∧
       (b = true ↔ ∃ s, s ∈ Sections (go_note_file (Ok [])) ∧ Name s = ".note.go.buildid") ∧
       (∀ fs' path' f', elf_Open fs' path' = Ok f' →
                        Sections f' = Sections (go_note_file (Ok [])) →
                        IsGoObjFile fs' path' = (b, None)).
Proof. apply (IsGoObjFile_iff (one_file (go_note_file (Ok []))) "a.out"). reflexivity. Defined.

(** C6.  For a path that opens, [HasSymbols] returns no error, and returns
    true exactly when some section has type SHT_SYMTAB or SHT_DYNSYM; the
    answer is the same for any file whose sections have the same types in
    the same order, whatever their names and symbols. *)
Theorem HasSymbols_iff (fs : FileSystem) (path : string) (f : elf_File) :
  elf_Open fs path = Ok f →
  ∃ b, HasSymbols fs path = (b, None) ∧
       (b = true ↔ ∃ s, s ∈ Sections f ∧ (SType s = SHT_SYMTAB ∨ SType s = SHT_DYNSYM)) ∧
       (∀ fs' path' f', elf_Open fs' path' = Ok f' →
                        SType <$> Sections f' = SType <$> Sections f →
                        HasSymbols fs' path' = (b, None)).
Proof.
  intros Hopen. unfold HasSymbols. rewrite Hopen.
  eexists. split_and!; [reflexivity| |].
  - rewrite existsb_elem_of. by setoid_rewrite orb_true_iff; setoid_rewrite Z.eqb_eq.
  - intros fs' path' f' Hopen' Hty. rewrite Hopen'. f_equal.
    pose (g := λ t, (t =? SHT_SYMTAB) || (t =? SHT_DYNSYM)).
    change (existsb (g ∘ SType) (Sections f') = existsb (g ∘ SType) (Sections f)).
    unfold SectionType in Hty.
    by rewrite (existsb_fmap g SType (Sections f')), Hty, <- existsb_fmap.
Qed.

Lemma HasSymbols_iff_witness :
  ∃ b, HasSymbols (one_file dynsym_file) "a.out" = (b, None) ∧
       (b = true ↔ ∃ s, s ∈ Sections dynsym_file
                        ∧ (SType s = SHT_SYMTAB ∨ SType s = SHT_DYNSYM)) ∧
       (∀ fs' path' f', elf_Open fs' path' = Ok f' →
                        SType <$> Sections f' = SType <$> Sections dynsym_file →
                        HasSymbols fs' path' = (b, None)).
Proof. apply (HasSymbols_iff (one_file dynsym_file) "a.out"). reflexivity. Defined.

(** C7.  For a path that opens to a file without sections, [HasDWARF],
    [HasSymbols] and [IsGoObjFile] return false and no error, and
    [ValidateFile] returns an error. *)
Theorem no_sections_verdicts (fs : FileSystem) (path : string) (f : elf_File) :
  elf_Open fs path = Ok f →
  Sections f = [] →
  HasDWARF fs path = (false, None) ∧
  HasSymbols fs path = (false, None) ∧
  IsGoObjFile fs path = (false, None) ∧
  ValidateFile fs path = Some (errors_New "ELF does not have any sections").
Proof.
  intros Hopen Hnil.
  unfold HasDWARF, HasSymbols, IsGoObjFile, ValidateFile, readableDWARFSections.
  rewrite Hopen, Hnil. cbn [foldl length Nat.eqb existsb]. by rewrite size_empty.
Qed.

Lemma no_sections_verdicts_witness :
  HasDWARF (one_file empty_file) "a.out" = (false, None) ∧
  HasSymbols (one_file empty_file) "a.out" = (false, None) ∧
  IsGoObjFile (one_file empty_file) "a.out" = (false, None) ∧
  ValidateFile (one_file empty_file) "a.out"
    = Some (errors_New "ELF does not have any sections").
Proof. apply (no_sections_verdicts (one_file empty_file) "a.out" empty_file); reflexivity. Defined.

(** ** IsSymbolizableGoObjFile *)

(** [File.Section] finds the first section of that name. *)
Lemma elf_File_Section_Some (f : elf_File) (name : string) (sec : elf_Section) :
  elf_File_Section f name = Some sec ↔
  ∃ i : nat, Sections f !! i = Some sec ∧ Name sec = name ∧
             ∀ (j : nat) s, Sections f !! j = Some s → (j < i)%nat → Name s ≠ name.
Proof.
  unfold elf_File_Section. rewrite fmap_Some. split.
  - intros ([i s] & (? & ? & ?)%list_find_Some & ->). by exists i.
  - intros (i & ? & ? & ?). exists (i, sec). by rewrite list_find_Some.
Qed.

Lemma elf_File_Section_None (f : elf_File) (name : string) :
  elf_File_Section f name = None ↔ ∀ s, s ∈ Sections f → Name s ≠ name.
Proof.
  unfold elf_File_Section. rewrite fmap_None, list_find_None, Forall_forall. done.
Qed.

Lemma first_gopclntab_loaded_some (f : elf_File) :
  first_gopclntab_loaded f → has_loaded_gopclntab f.
Proof.
  intros (sec & (i & Hi & Hn & _)%elf_File_Section_Some & Ht).
  exists sec. split_and!; try done. by eapply list_elem_of_lookup_2.
Qed.

Lemma foldl_sticky {A} (p : A → bool) (l : list A) (a : bool) :
  foldl (λ acc x, if p x then true else acc) a l = a || existsb p l.
Proof.
  revert a. induction l as [|x l IH]; intros a; simpl.
  - by rewrite orb_false_r.
  - rewrite IH. by destruct a, (p x).
Qed.

Lemma has_buildid_note_true (f : elf_File) : has_buildid_note f = true ↔ has_note f.
Proof.
  unfold has_buildid_note, has_note.
  rewrite (foldl_sticky (λ s, String.eqb (Name s) ".note.go.buildid")). simpl.
  rewrite existsb_elem_of. by setoid_rewrite String.eqb_eq.
Qed.

Lemma has_buildid_note_false (f : elf_File) : has_buildid_note f = false ↔ ¬ has_note f.
Proof. rewrite <- has_buildid_note_true. by destruct (has_buildid_note f). Qed.

Lemma scan_symbols_existsb (isGo : bool) (syms : list elf_Symbol) :
  scan_symbols isGo syms = isGo || existsb is_go_symbol syms.
Proof.
  unfold scan_symbols. rewrite <- foldl_sticky.
  revert isGo. induction syms as [|sym syms IH]; intros isGo; simpl; [done|].
  rewrite IH. f_equal. unfold is_go_symbol.
  by destruct (String.eqb _ "runtime.main"), (String.eqb _ "main.main"),
              (String.eqb _ "runtime.buildVersion").
Qed.

Lemma is_go_symbol_true (sym : elf_Symbol) :
  is_go_symbol sym = true ↔ SymName sym ∈ go_symbol_names.
Proof.
  unfold is_go_symbol, go_symbol_names.
  rewrite !orb_true_iff, !String.eqb_eq, !elem_of_cons, elem_of_nil. tauto.
Qed.

Lemma gopclntab_verdict_loaded (f : elf_File) :
  first_gopclntab_loaded f → gopclntab_verdict f = (true, None).
Proof.
  intros (sec & Hsec & Ht). unfold gopclntab_verdict. rewrite Hsec.
  by apply Z.eqb_eq in Ht as ->.
Qed.

Lemma gopclntab_verdict_not_loaded (f : elf_File) :
  ¬ first_gopclntab_loaded f → gopclntab_verdict f = (false, Some NotSymbolizableError).
Proof.
  intros Hno. unfold gopclntab_verdict.
  destruct (elf_File_Section f ".gopclntab") as [sec|] eqn:Hsec; [|done].
  destruct (Z.eqb_spec (SType sec) SHT_PROGBITS) as [Ht|Ht]; [|done].
  destruct Hno. by exists sec.
Qed.

Section SymbolizablePaths.

Context (fs : FileSystem) (path : string) (f : elf_File).
Hypothesis Hopen : elf_Open fs path = Ok f.

(** The three paths through the function after a successful open. *)
Lemma IsSymbolizableGoObjFile_note :
  has_note f → IsSymbolizableGoObjFile fs path = gopclntab_verdict f.
Proof.
  intros Hn%has_buildid_note_true. unfold IsSymbolizableGoObjFile.
  rewrite Hopen. simpl. rewrite Hn. simpl. reflexivity.
Qed.

Lemma IsSymbolizableGoObjFile_unreadable (e : error) :
  ¬ has_note f → elf_Symbols f = Err e →
  IsSymbolizableGoObjFile fs path
    = (false, Some (fmt_Errorf_w "failed to read symbols: %w" e)).
Proof.
  intros Hn%has_buildid_note_false Hsym. unfold IsSymbolizableGoObjFile.
  rewrite Hopen. simpl. rewrite Hn, Hsym. reflexivity.
Qed.

Lemma IsSymbolizableGoObjFile_symbols (syms : list elf_Symbol) :
  ¬ has_note f → elf_Symbols f = Ok syms →
  IsSymbolizableGoObjFile fs path
    = if existsb is_go_symbol syms then gopclntab_verdict f else (false, None).
Proof.
  intros Hn%has_buildid_note_false Hsym. unfold IsSymbolizableGoObjFile.
  rewrite Hopen. simpl. rewrite Hn, Hsym. simpl.
  rewrite scan_symbols_existsb. simpl.
  by destruct (existsb is_go_symbol syms).
Qed.

End SymbolizablePaths.

(** C2 fails as stated.  A file without the note section whose symbols
    cannot be read is not classified as toolchain-produced, yet the result
    is an error, not (false, nil); and a loaded ".gopclntab" section that
    is not the first of that name does not make the result true. *)
Lemma three_outcomes_counterexample :
  (elf_Open (one_file stripped_file) "a.out" = Ok stripped_file ∧
   ¬ three_outcomes (one_file stripped_file) "a.out" stripped_file) ∧
  (elf_Open (one_file twice_gopclntab_file) "a.out" = Ok twice_gopclntab_file ∧
   ¬ three_outcomes (one_file twice_gopclntab_file) "a.out" twice_gopclntab_file).
Proof.
  split; (split; [reflexivity|]).
  - intros [H _]. assert (¬ toolchain_produced stripped_file) as Hn.
    { intros [(s & Hs & Hname)|(syms & sym & Hsym & _)]; [|discriminate Hsym].
      unfold stripped_file in Hs. simpl in Hs. list_cases Hs; discriminate Hname. }
    specialize (H Hn). vm_compute in H. discriminate H.
  - intros (_ & H & _).
    assert (toolchain_produced twice_gopclntab_file) as Hp.
    { left. exists (mkSection ".note.go.buildid" SHT_NOTE). split; [in_list|done]. }
    assert (has_loaded_gopclntab twice_gopclntab_file) as Hl.
    { exists (mkSection ".gopclntab" SHT_PROGBITS). split_and!; [in_list|done..]. }
    specialize (H Hp Hl). vm_compute in H. discriminate H.
Qed.

(** C2, amended.  For a path that opens there are four outcomes.  Without
    the note section and with an unreadable symbol list, the result is the
    error of that read.  Otherwise: a file not classified as
    toolchain-produced gives (false, nil); a classified file whose first
    section named ".gopclntab" has type SHT_PROGBITS gives (true, nil); a
    classified file with no such section, or whose first one has another
    type, gives the not-symbolizable error. *)
Theorem IsSymbolizableGoObjFile_outcomes (fs : FileSystem) (path : string) (f : elf_File) :
  elf_Open fs path = Ok f →
  (¬ has_note f → ∀ e, elf_Symbols f = Err e →
     IsSymbolizableGoObjFile fs path
       = (false, Some (fmt_Errorf_w "failed to read symbols: %w" e))) ∧
  (has_note f ∨ (∃ syms, elf_Symbols f = Ok syms) →
     (¬ toolchain_produced f → IsSymbolizableGoObjFile fs path = (false, None)) ∧
     (toolchain_produced f → first_gopclntab_loaded f →
        IsSymbolizableGoObjFile fs path = (true, None)) ∧
     (toolchain_produced f → ¬ first_gopclntab_loaded f →
        IsSymbolizableGoObjFile fs path = (false, Some NotSymbolizableError))).
Proof.
  intros Hopen. split.
  { intros Hn e He. exact (IsSymbolizableGoObjFile_unreadable fs path f Hopen e Hn He). }
  intros Hread.
  destruct (has_buildid_note f) eqn:Hnote.
  - apply has_buildid_note_true in Hnote.
    rewrite (IsSymbolizableGoObjFile_note fs path f Hopen Hnote). split_and!.
    + intros Hn. destruct Hn. by left.
    + intros _. apply gopclntab_verdict_loaded.
    + intros _. apply gopclntab_verdict_not_loaded.
  - apply has_buildid_note_false in Hnote.
    destruct Hread as [?|[syms Hsyms]]; [done|].
    rewrite (IsSymbolizableGoObjFile_symbols fs path f Hopen syms Hnote Hsyms).
    destruct (existsb is_go_symbol syms) eqn:Hex.
    + apply existsb_elem_of in Hex as (sym & Hin & Hsym%is_go_symbol_true).
      split_and!.
      * intros Hn. destruct Hn. right. by exists syms, sym.
      * intros _. apply gopclntab_verdict_loaded.
      * intros _. apply gopclntab_verdict_not_loaded.
    + assert (¬ toolchain_produced f) as Hn.
      { intros [?|(syms' & sym & Hsyms' & Hin & Hsym)]; [done|].
        rewrite Hsyms in Hsyms'. injection Hsyms' as <-.
        apply is_go_symbol_true in Hsym.
        assert (existsb is_go_symbol syms = true) as Ht
          by (apply existsb_elem_of; by exists sym).
        by rewrite Ht in Hex. }
      split_and!; [done|by intros ?..].
Qed.

Lemma IsSymbolizableGoObjFile_outcomes_witness :
  IsSymbolizableGoObjFile (one_file stripped_file) "a.out"
    = (false, Some (fmt_Errorf_w "failed to read symbols: %w" elf_ErrNoSymbols)) ∧
  IsSymbolizableGoObjFile (one_file go_symbol_file) "a.out" = (true, None) ∧
  IsSymbolizableGoObjFile (one_file twice_gopclntab_file) "a.out"
    = (false, Some NotSymbolizableError).
Proof.
  split_and!.
  - apply (IsSymbolizableGoObjFile_outcomes (one_file stripped_file) "a.out" stripped_file);
      [reflexivity| |reflexivity].
    intros (s & Hs & Hname). unfold stripped_file in Hs. simpl in Hs.
    list_cases Hs; discriminate Hname.
  - apply (IsSymbolizableGoObjFile_outcomes (one_file go_symbol_file) "a.out" go_symbol_file);
      [reflexivity| | |].
    + right. by exists [mkSymbol "runtime.main" 1].
    + right. exists [mkSymbol "runtime.main" 1], (mkSymbol "runtime.main" 1).
      split_and!; [reflexivity|in_list|in_list].
    + exists (mkSection ".gopclntab" SHT_PROGBITS). split; reflexivity.
  - apply (IsSymbolizableGoObjFile_outcomes (one_file twice_gopclntab_file) "a.out"
             twice_gopclntab_file); [reflexivity| | |].
    + left. exists (mkSection ".note.go.buildid" SHT_NOTE). split; [in_list|done].
    + left. exists (mkSection ".note.go.buildid" SHT_NOTE). split; [in_list|done].
    + intros (sec & Hsec & Ht). vm_compute in Hsec. injection Hsec as <-. discriminate Ht.
Defined.

Lemma elf_Symbols_no_symtab (f : elf_File) :
  (∀ s, s ∈ Sections f → SType s ≠ SHT_SYMTAB) → elf_Symbols f = Err elf_ErrNoSymbols.
Proof.
  intros Hno. unfold elf_Symbols, elf_File_SectionByType.
  destruct (list_find _ _) as [[i s]|] eqn:Hfind; [|done].
  apply list_find_Some in Hfind as (Hi & Ht & _).
  destruct (Hno s); [by eapply list_elem_of_lookup_2|done].
Qed.

Lemma gopclntab_verdict_sections (f f' : elf_File) :
  Sections f' = Sections f → gopclntab_verdict f' = gopclntab_verdict f.
Proof. intros Hs. unfold gopclntab_verdict, elf_File_Section. by rewrite Hs. Qed.

Lemma gopclntab_verdict_error (f : elf_File) (e : error) :
  (gopclntab_verdict f).2 = Some e → e = NotSymbolizableError.
Proof.
  unfold gopclntab_verdict.
  destruct (elf_File_Section f ".gopclntab") as [sec|];
    [destruct (SType sec =? SHT_PROGBITS)|]; simpl; congruence.
Qed.

(** C10.  For a path that opens: without a section named
    ".note.go.buildid", an unreadable symbol list makes the result the
    error of that read (so for a file with no SHT_SYMTAB section at all),
    never (false, nil); with such a section the result is the same for
    every file with these sections, whatever reading its symbols would
    give, and is never an error of reading the symbols. *)
Theorem IsSymbolizableGoObjFile_symbol_read (fs : FileSystem) (path : string) (f : elf_File) :
  elf_Open fs path = Ok f →
  (¬ has_note f → ∀ e, elf_Symbols f = Err e →
     IsSymbolizableGoObjFile fs path
       = (false, Some (fmt_Errorf_w "failed to read symbols: %w" e))) ∧
  (¬ has_note f → (∀ s, s ∈ Sections f → SType s ≠ SHT_SYMTAB) →
     IsSymbolizableGoObjFile fs path
       = (false, Some (fmt_Errorf_w "failed to read symbols: %w" elf_ErrNoSymbols))) ∧
  (has_note f →
     (∀ fs' path' f', elf_Open fs' path' = Ok f' → Sections f' = Sections f →
        IsSymbolizableGoObjFile fs' path' = IsSymbolizableGoObjFile fs path) ∧
     (∀ e, (IsSymbolizableGoObjFile fs path).2
             ≠ Some (fmt_Errorf_w "failed to read symbols: %w" e))).
Proof.
  intros Hopen. split_and!.
  - intros Hn e He. exact (IsSymbolizableGoObjFile_unreadable fs path f Hopen e Hn He).
  - intros Hn Hno.
    exact (IsSymbolizableGoObjFile_unreadable fs path f Hopen _ Hn
             (elf_Symbols_no_symtab f Hno)).
  - intros Hn. rewrite (IsSymbolizableGoObjFile_note fs path f Hopen Hn). split.
    + intros fs' path' f' Hopen' Hsec.
      assert (has_note f') as Hn' by (unfold has_note; by rewrite Hsec).
      rewrite (IsSymbolizableGoObjFile_note fs' path' f' Hopen' Hn').
      by apply gopclntab_verdict_sections.
    + intros e He. by apply gopclntab_verdict_error in He.
Qed.

Lemma IsSymbolizableGoObjFile_symbol_read_witness :
  IsSymbolizableGoObjFile (one_file stripped_file) "a.out"
    = (false, Some (fmt_Errorf_w "failed to read symbols: %w" elf_ErrNoSymbols)) ∧
  IsSymbolizableGoObjFile (one_file (go_note_file (Ok []))) "a.out"
    = IsSymbolizableGoObjFile (one_file (go_note_file (Err (lib_error "bad symtab")))) "a.out".
Proof.
  assert (¬ has_note stripped_file) as Hn.
  { intros (s & Hs & Hname). unfold stripped_file in Hs. simpl in Hs.
    list_cases Hs; discriminate Hname. }
  split.
  - apply (IsSymbolizableGoObjFile_symbol_read (one_file stripped_file) "a.out" stripped_file);
      [reflexivity|exact Hn|].
    intros s Hs. unfold stripped_file in Hs. simpl in Hs. list_cases Hs; discriminate.
  - destruct (IsSymbolizableGoObjFile_symbol_read
                (one_file (go_note_file (Err (lib_error "bad symtab")))) "a.out"
                (go_note_file (Err (lib_error "bad symtab"))) eq_refl) as (_ & _ & H).
    destruct H as [Heq _].
    { exists (mkSection ".note.go.buildid" SHT_NOTE). split; [in_list|done]. }
    apply (Heq _ _ (go_note_file (Ok []))); reflexivity.
Defined.

(** ** ValidateHeader: reading *)

(** Writes through the limited writer compose: however the reads behind
    [io.TeeReader] are cut into pieces, the buffer ends up with the first
    bytes read, up to the limit. *)
Lemma limitio_Write_app (limit : nat) (buf p q : list byte) :
  limitio_Write limit (limitio_Write limit buf p) q = limitio_Write limit buf (p ++ q).
Proof.
  unfold limitio_Write. rewrite <- (assoc_L (++)). f_equal.
  rewrite length_app, length_take, take_app. do 2 f_equal. lia.
Qed.

Lemma io_LimitReader_long (r : Reader) (n : nat) :
  (n ≤ length (stream r))%nat → io_LimitReader r n = mkReader (take n (stream r)) None.
Proof. intros Hn. unfold io_LimitReader. by rewrite decide_True. Qed.

Lemma io_LimitReader_short (r : Reader) (n : nat) :
  (length (stream r) < n)%nat → io_LimitReader r n = r.
Proof. intros Hn. unfold io_LimitReader. rewrite decide_False; [done|lia]. Qed.

Lemma io_LimitReader_idemp (r : Reader) (n : nat) :
  io_LimitReader (io_LimitReader r n) n = io_LimitReader r n.
Proof.
  destruct (decide (n ≤ length (stream r))%nat) as [Hn|Hn].
  - rewrite (io_LimitReader_long r n Hn). unfold io_LimitReader. simpl.
    rewrite decide_True, take_take; [by rewrite Nat.min_id|].
    rewrite length_take. lia.
  - rewrite (io_LimitReader_short r n); [|lia]. apply io_LimitReader_short. lia.
Qed.

Lemma bytes_Buffer_Read_ident (b : list byte) :
  b ≠ [] →
  bytes_Buffer_Read (limitio_Write 16 [] b) (replicate 16 x00) = (ident_of b, None).
Proof.
  intros Hb. unfold limitio_Write.
  change ([] ++ take (16 - length []) b) with (take 16 b).
  unfold bytes_Buffer_Read. destruct (take 16 b) as [|x t] eqn:Ht.
  { destruct b; [done|discriminate Ht]. }
  rewrite <- Ht, length_replicate, take_take, Nat.min_id, length_take, drop_replicate.
  unfold ident_of. do 3 f_equal. lia.
Qed.

Lemma ident_of_lookup (b : list byte) (i : nat) :
  (i < 16)%nat → ident_of b !!! i = b !!! i.
Proof.
  intros Hi. unfold ident_of. rewrite !list_lookup_total_alt.
  destruct (decide (i < length b)%nat) as [Hl|Hl].
  - rewrite lookup_app_l by (rewrite length_take; lia). by rewrite lookup_take_lt.
  - rewrite lookup_app_r by (rewrite length_take; lia).
    rewrite length_take, (lookup_ge_None_2 b) by lia.
    rewrite lookup_replicate_2; [done|lia].
Qed.

Lemma ident_of_take (b : list byte) (n : nat) :
  (n ≤ length b)%nat → (n ≤ 16)%nat → take n (ident_of b) = take n b.
Proof.
  intros Hl Hn. unfold ident_of.
  rewrite take_app_le by (rewrite length_take; lia).
  rewrite take_take. f_equal. lia.
Qed.

(** ** ValidateHeader: the checks *)

Lemma byte_val_range (b : byte) : 0 ≤ byte_val b < 256.
Proof. unfold byte_val. pose proof (Byte.to_N_bounded b). lia. Qed.

Lemma at_range (b : list byte) (i : nat) : 0 ≤ at_ b i < 2 ^ 8.
Proof. apply byte_val_range. Qed.

Lemma lor_shiftl_range (a c k n : Z) :
  0 ≤ k → 0 ≤ n → 0 ≤ a < 2 ^ k → 0 ≤ c < 2 ^ n → 0 ≤ Z.lor a (Z.shiftl c k) < 2 ^ (k + n).
Proof.
  intros Hk Hn [Ha0 Ha] [Hc0 Hc]. split.
  { apply Z.lor_nonneg. split; [done|]. by apply Z.shiftl_nonneg. }
  apply Z.bounded_iff_bits_nonneg; [lia| |].
  { apply Z.lor_nonneg. split; [done|]. by apply Z.shiftl_nonneg. }
  intros l Hl. rewrite Z.lor_spec, Z.shiftl_spec by lia.
  rewrite (proj1 (Z.bounded_iff_bits_nonneg k a Hk Ha0) Ha l) by lia.
  rewrite (proj1 (Z.bounded_iff_bits_nonneg n c Hn Hc0) Hc (l - k)) by lia.
  done.
Qed.

Lemma Uint64_range (o : ByteOrder) (b : list byte) : 0 ≤ Uint64 o b < 2 ^ 64.
Proof.
  destruct o; unfold Uint64.
  - pose proof (lor_shiftl_range _ _ 8 8 ltac:(lia) ltac:(lia) (at_range b 0) (at_range b 1)) as H1.
    pose proof (lor_shiftl_range _ _ 16 8 ltac:(lia) ltac:(lia) H1 (at_range b 2)) as H2.
    pose proof (lor_shiftl_range _ _ 24 8 ltac:(lia) ltac:(lia) H2 (at_range b 3)) as H3.
    pose proof (lor_shiftl_range _ _ 32 8 ltac:(lia) ltac:(lia) H3 (at_range b 4)) as H4.
    pose proof (lor_shiftl_range _ _ 40 8 ltac:(lia) ltac:(lia) H4 (at_range b 5)) as H5.
    pose proof (lor_shiftl_range _ _ 48 8 ltac:(lia) ltac:(lia) H5 (at_range b 6)) as H6.
    exact (lor_shiftl_range _ _ 56 8 ltac:(lia) ltac:(lia) H6 (at_range b 7)).
  - pose proof (lor_shiftl_range _ _ 8 8 ltac:(lia) ltac:(lia) (at_range b 7) (at_range b 6)) as H1.
    pose proof (lor_shiftl_range _ _ 16 8 ltac:(lia) ltac:(lia) H1 (at_range b 5)) as H2.
    pose proof (lor_shiftl_range _ _ 24 8 ltac:(lia) ltac:(lia) H2 (at_range b 4)) as H3.
    pose proof (lor_shiftl_range _ _ 32 8 ltac:(lia) ltac:(lia) H3 (at_range b 3)) as H4.
    pose proof (lor_shiftl_range _ _ 40 8 ltac:(lia) ltac:(lia) H4 (at_range b 2)) as H5.
    pose proof (lor_shiftl_range _ _ 48 8 ltac:(lia) ltac:(lia) H5 (at_range b 1)) as H6.
    exact (lor_shiftl_range _ _ 56 8 ltac:(lia) ltac:(lia) H6 (at_range b 0)).
Qed.

Lemma int64_zero (v : Z) : 0 ≤ v < 2 ^ 64 → (int64 v = 0 ↔ v = 0).
Proof. intros Hv. unfold int64. destruct (Z.ltb_spec v (2 ^ 63)); lia. Qed.

Lemma magic_lookup (s : list byte) :
  take 4 s = magic →
  s !!! 0%nat = x7f ∧ s !!! 1%nat = x45 ∧ s !!! 2%nat = x4c ∧ s !!! 3%nat = x46.
Proof.
  destruct s as [|b0 [|b1 [|b2 [|b3 s]]]]; try discriminate.
  intros [= -> -> -> ->]. done.
Qed.

Lemma fail_if_false {B} (c : bool) (e : error) (k : () → result B) :
  c = false → (fail_if c e ≫= k) = k ().
Proof. by intros ->. Qed.

Lemma fail_if_true {B} (c : bool) (e : error) (k : () → result B) :
  c = true → (fail_if c e ≫= k) = Err e.
Proof. by intros ->. Qed.

Lemma binary_Read64_full (b : list byte) (o : ByteOrder) :
  length b = 64%nat → binary_Read64 (bytes_NewReader b) o = Ok (decode_Header64 o b).
Proof.
  intros Hl. unfold binary_Read64, io_ReadFull, Header64_size. simpl.
  rewrite decide_True by lia. simpl. by rewrite take_ge by lia.
Qed.

(** C3.  For a 64-byte stream with the magic, class ELFCLASS64, little
    endian, version 1 in the identification and in the header, a non-zero
    section-header offset and a positive section count: if the index of the
    string table equals the section count the result is the
    index-out-of-bounds error, and if it is one less the result is nil. *)
Theorem ValidateHeader_shstrndx_boundary (r : Reader) :
  length (stream r) = 64%nat →
  take 4 (stream r) = magic →
  at_ (stream r) EI_CLASS = ELFCLASS64 →
  at_ (stream r) EI_DATA = ELFDATA2LSB →
  at_ (stream r) EI_VERSION = EV_CURRENT →
  Version64 (decode_Header64 LittleEndian (stream r)) = EV_CURRENT →
  Shoff64 (decode_Header64 LittleEndian (stream r)) ≠ 0 →
  0 < Shnum64 (decode_Header64 LittleEndian (stream r)) →
  (Shstrndx64 (decode_Header64 LittleEndian (stream r))
     = Shnum64 (decode_Header64 LittleEndian (stream r)) →
   ValidateHeader r
     = Some (fmt_Errorf "invalid ELF file, shstrndx is %d but shnum is %d"
               [AInt (Shstrndx64 (decode_Header64 LittleEndian (stream r)));
                AInt (Shnum64 (decode_Header64 LittleEndian (stream r)))])) ∧
  (Shstrndx64 (decode_Header64 LittleEndian (stream r))
     = Shnum64 (decode_Header64 LittleEndian (stream r)) - 1 →
   ValidateHeader r = None).
Proof.
  intros Hlen Hmagic Hc Hd Hv Hhv Hoff Hnum.
  assert (stream r ≠ []) as Hne by (intros Hs; rewrite Hs in Hlen; discriminate).
  unfold ValidateHeader, ValidateHeader_run.
  rewrite (io_LimitReader_long r 64), take_ge by lia.
  set (s := stream r) in *.
  cbn [io_ReadAll stream broken fmap option_fmap option_map of_pair fst snd mbind result_bind].
  rewrite bytes_Buffer_Read_ident by exact Hne.
  cbn [of_pair fst snd mbind result_bind].
  rewrite !ident_of_lookup by (unfold EI_CLASS, EI_DATA, EI_VERSION; lia).
  destruct (magic_lookup s Hmagic) as (-> & -> & -> & ->).
  unfold at_ in Hc, Hd, Hv. rewrite Hc, Hd, Hv.
  rewrite fail_if_false by reflexivity.
  rewrite fail_if_false by reflexivity.
  change (ELFDATA2LSB =? ELFDATA2LSB) with true. cbn [mbind result_bind].
  rewrite fail_if_false by reflexivity.
  change (ELFCLASS64 =? ELFCLASS32) with false.
  change (ELFCLASS64 =? ELFCLASS64) with true. cbn [mbind result_bind].
  rewrite binary_Read64_full by exact Hlen.
  set (hdr := decode_Header64 LittleEndian s) in *.
  cbn [mbind result_bind]. rewrite Hhv.
  rewrite fail_if_false by reflexivity.
  cbn [mbind result_bind].
  assert (int64 (Shoff64 hdr) ≠ 0) as Hoff'.
  { rewrite int64_zero; [done|]. apply Uint64_range. }
  rewrite fail_if_false by (apply andb_false_iff; left; by apply Z.eqb_neq).
  split; intros Hidx.
  - rewrite fail_if_true; [done|].
    apply andb_true_iff. split; [by apply Z.ltb_lt|apply Z.leb_le; lia].
  - rewrite fail_if_false by (apply andb_false_iff; right; apply Z.leb_gt; lia).
    rewrite fail_if_false by (apply Z.leb_gt; lia).
    done.
Qed.

Lemma ValidateHeader_shstrndx_boundary_witness :
  ValidateHeader (bytes_NewReader (header64_bytes x03 x03))
    = Some (fmt_Errorf "invalid ELF file, shstrndx is %d but shnum is %d" [AInt 3; AInt 3]) ∧
  ValidateHeader (bytes_NewReader (header64_bytes x03 x02)) = None.
Proof.
  split.
  - apply (ValidateHeader_shstrndx_boundary (bytes_NewReader (header64_bytes x03 x03)));
      try reflexivity. vm_compute. discriminate.
  - apply (ValidateHeader_shstrndx_boundary (bytes_NewReader (header64_bytes x03 x02)));
      try reflexivity. vm_compute. discriminate.
Defined.

(** ** ValidateHeader: short streams *)

Lemma binary_Read32_short (b : list byte) (o : ByteOrder) :
  b ≠ [] → (length b < 52)%nat →
  binary_Read32 (io_LimitReader (bytes_NewReader b) 52) o = Err io_ErrUnexpectedEOF.
Proof.
  intros Hne Hl. rewrite io_LimitReader_short by (simpl; lia).
  unfold binary_Read32, io_ReadFull, Header32_size. simpl.
  rewrite decide_False by lia. rewrite decide_False; [done|].
  by destruct b.
Qed.

Lemma binary_Read64_short (b : list byte) (o : ByteOrder) :
  b ≠ [] → (length b < 64)%nat →
  binary_Read64 (bytes_NewReader b) o = Err io_ErrUnexpectedEOF.
Proof.
  intros Hne Hl. unfold binary_Read64, io_ReadFull, Header64_size. simpl.
  rewrite decide_False by lia. rewrite decide_False; [done|].
  by destruct b.
Qed.

(** C8.  For a stream whose identification is valid (magic, class 1 or 2,
    data encoding 1 or 2, version 1) and that is shorter than the header of
    its class, the result is a read error: the reader's own failure if it
    has one, and [io.ErrUnexpectedEOF] otherwise; never nil. *)
Theorem ValidateHeader_truncated (r : Reader) :
  take 4 (stream r) = magic →
  at_ (stream r) EI_CLASS = ELFCLASS32 ∨ at_ (stream r) EI_CLASS = ELFCLASS64 →
  at_ (stream r) EI_DATA = ELFDATA2LSB ∨ at_ (stream r) EI_DATA = ELFDATA2MSB →
  at_ (stream r) EI_VERSION = EV_CURRENT →
  (length (stream r) < header_size (at_ (stream r) EI_CLASS))%nat →
  ∃ e, ValidateHeader r = Some e ∧ is_ReadError e = true ∧
       e = match broken r with
           | Some msg => lib_error msg
           | None => io_ErrUnexpectedEOF
           end.
Proof.
  intros Hmagic Hc Hd Hv Hlen.
  assert (length (stream r) < 64)%nat as Hlen64.
  { unfold header_size, Header32_size, Header64_size in Hlen.
    destruct (_ =? _) in Hlen; lia. }
  assert (stream r ≠ []) as Hne by (intros Hs; by rewrite Hs in Hmagic).
  unfold ValidateHeader, ValidateHeader_run.
  rewrite (io_LimitReader_short r 64) by lia.
  destruct r as [s [msg|]]; simpl in Hmagic, Hc, Hd, Hv, Hlen, Hlen64, Hne.
  { eexists. split_and!; reflexivity. }
  cbn [io_ReadAll stream broken fmap option_fmap option_map of_pair fst snd mbind result_bind].
  rewrite bytes_Buffer_Read_ident by exact Hne.
  cbn [of_pair fst snd mbind result_bind].
  rewrite !ident_of_lookup by (unfold EI_CLASS, EI_DATA, EI_VERSION; lia).
  destruct (magic_lookup s Hmagic) as (-> & -> & -> & ->).
  rewrite fail_if_false by reflexivity.
  unfold at_ in Hc, Hd, Hv, Hlen. rewrite Hv.
  assert (∀ o, (if byte_val (s !!! EI_CLASS) =? ELFCLASS32
               then hdr ← binary_Read32 (io_LimitReader (bytes_NewReader s) 52) o;
                    fail_if (negb (elf_Version (Version32 hdr) =? EV_CURRENT))
                      (fmt_Errorf "invalid ELF version, %s"
                         [AVersion (elf_Version (Version32 hdr))]);;
                    Ok (Shoff32 hdr, Shnum32 hdr, Shstrndx32 hdr)
               else if byte_val (s !!! EI_CLASS) =? ELFCLASS64
               then hdr ← binary_Read64 (bytes_NewReader s) o;
                    fail_if (negb (elf_Version (Version64 hdr) =? EV_CURRENT))
                      (fmt_Errorf "invalid ELF version, %s"
                         [AVersion (elf_Version (Version64 hdr))]);;
                    Ok (int64 (Shoff64 hdr), Shnum64 hdr, Shstrndx64 hdr)
               else Ok (0, 0, 0)) = Err io_ErrUnexpectedEOF) as Hread.
  { intros o. destruct Hc as [Hc|Hc]; rewrite Hc in Hlen |- *.
    - change (ELFCLASS32 =? ELFCLASS32) with true. cbv iota.
      by rewrite binary_Read32_short by (done || exact Hlen).
    - change (ELFCLASS64 =? ELFCLASS32) with false.
      change (ELFCLASS64 =? ELFCLASS64) with true. cbv iota.
      by rewrite binary_Read64_short by (done || exact Hlen). }
  rewrite fail_if_false by (destruct Hc as [-> | ->]; reflexivity).
  exists io_ErrUnexpectedEOF. split_and!; [|done..].
  destruct Hd as [-> | ->].
  - change (ELFDATA2LSB =? ELFDATA2LSB) with true. cbn [mbind result_bind].
    rewrite fail_if_false by reflexivity. by rewrite Hread.
  - change (ELFDATA2MSB =? ELFDATA2LSB) with false.
    change (ELFDATA2MSB =? ELFDATA2MSB) with true. cbn [mbind result_bind].
    rewrite fail_if_false by reflexivity. by rewrite Hread.
Qed.

Lemma ValidateHeader_truncated_witness :
  ∃ e, ValidateHeader (bytes_NewReader (take 40 (header64_bytes x03 x02))) = Some e ∧
       is_ReadError e = true ∧ e = io_ErrUnexpectedEOF.
Proof.
  apply (ValidateHeader_truncated (bytes_NewReader (take 40 (header64_bytes x03 x02))));
    [reflexivity|by right|by left|reflexivity|vm_compute; lia].
Defined.

Lemma Byte_eqb_spec (a b : byte) : reflect (a = b) (Byte.eqb a b).
Proof.
  destruct (Byte.eqb a b) eqn:H; constructor.
  - by apply Byte.byte_dec_bl.
  - by apply Byte.eqb_false.
Qed.

(** The magic check fails exactly when the first four bytes are not the
    magic; a stream of fewer than four bytes never has it. *)
Lemma magic_check (s : list byte) :
  negb (Byte.eqb (s !!! 0%nat) x7f) || negb (Byte.eqb (s !!! 1%nat) x45)
  || negb (Byte.eqb (s !!! 2%nat) x4c) || negb (Byte.eqb (s !!! 3%nat) x46)
  = negb (bool_decide (take 4 s = magic)).
Proof.
  destruct s as [|b0 [|b1 [|b2 [|b3 s]]]];
    try (rewrite bool_decide_eq_false_2 by discriminate).
  - reflexivity.
  - cbn. by rewrite !orb_true_r.
  - cbn. by rewrite !orb_true_r.
  - cbn. by rewrite !orb_true_r.
  - change (take 4 (b0 :: b1 :: b2 :: b3 :: s)) with [b0; b1; b2; b3].
    change ((b0 :: b1 :: b2 :: b3 :: s) !!! 0%nat) with b0.
    change ((b0 :: b1 :: b2 :: b3 :: s) !!! 1%nat) with b1.
    change ((b0 :: b1 :: b2 :: b3 :: s) !!! 2%nat) with b2.
    change ((b0 :: b1 :: b2 :: b3 :: s) !!! 3%nat) with b3.
    unfold magic.
    destruct (Byte_eqb_spec b0 x7f) as [->|?], (Byte_eqb_spec b1 x45) as [->|?],
             (Byte_eqb_spec b2 x4c) as [->|?], (Byte_eqb_spec b3 x46) as [->|?];
      first [rewrite bool_decide_eq_true_2 by reflexivity
            |rewrite bool_decide_eq_false_2 by congruence];
      cbn [negb orb]; by rewrite ?orb_true_r.
Qed.

(** C4.  The code on streams shorter than 16 bytes.  The count returned
    by [buf.Read] is dropped, so the zero-initialised identification is
    checked as if all of it had been read: the one-byte stream "A" gets
    the format error of the magic check, with three bytes that were never
    read, and the four magic bytes alone get the class error for a class
    byte that is not in the stream.  The other paths for missing bytes do
    return read errors: [io.EOF] for the empty stream and
    [io.ErrUnexpectedEOF] for a header cut short behind a valid
    identification. *)
Theorem ValidateHeader_short_stream_divergence :
  ValidateHeader (bytes_NewReader [x41])
    = Some (fmt_Errorf "invalid magic number, %s" [ABytes [x41; x00; x00; x00]]) ∧
  ValidateHeader (bytes_NewReader [x7f; x45; x4c; x46])
    = Some (fmt_Errorf "unknown ELF class, %s" [AClass 0]) ∧
  ValidateHeader (bytes_NewReader []) = Some io_EOF ∧
  ValidateHeader (bytes_NewReader [x7f; x45; x4c; x46; x02; x01; x01])
    = Some io_ErrUnexpectedEOF.
Proof. split_and!; reflexivity. Qed.

(** So not every stream shorter than 16 bytes gets a read error. *)
Lemma short_stream_counterexample :
  ¬ (∀ r : Reader, (length (stream r) < 16)%nat →
       ∃ e, ValidateHeader r = Some e ∧ is_ReadError e = true).
Proof.
  intros H. destruct (H (bytes_NewReader [x41])) as (e & He & Hr); [simpl; lia|].
  vm_compute in He. injection He as <-. discriminate Hr.
Qed.

(** The two halves on the code as it is.  A stream shorter than 16 bytes
    always gets an error, never nil; the code returns a read error when
    the stream is empty, when the reader fails, or when the bytes present
    followed by zeros pass the identification checks, and an error of
    these checks otherwise.  A 64-byte stream whose first four bytes are
    not the magic gets the format error that carries those four bytes. *)
Theorem ValidateHeader_short_or_bad_magic (r : Reader) :
  ((length (stream r) < 16)%nat →
     ∃ e, ValidateHeader r = Some e ∧
          if bool_decide (stream r = []) || bool_decide (is_Some (broken r))
             || ident_valid (stream r)
          then is_ReadError e = true else is_FormatError e = true) ∧
  (length (stream r) = 64%nat → take 4 (stream r) ≠ magic →
     ValidateHeader r
       = Some (fmt_Errorf "invalid magic number, %s" [ABytes (take 4 (stream r))])).
Proof.
  split.
  - intros Hlen. unfold ValidateHeader, ValidateHeader_run.
    rewrite (io_LimitReader_short r 64) by lia.
    destruct r as [s [msg|]]; simpl in Hlen.
    { eexists. split; [reflexivity|].
      cbn [broken stream]. rewrite (bool_decide_eq_true_2 (is_Some (Some msg))) by eauto.
      by rewrite orb_true_r. }
    cbn [io_ReadAll stream broken fmap option_fmap option_map of_pair fst snd
         mbind result_bind].
    rewrite (bool_decide_eq_false_2 (is_Some None)) by (by intros [? ?]).
    rewrite orb_false_r.
    destruct s as [|x s'] eqn:Hs.
    { eexists. split; reflexivity. }
    rewrite <- Hs in *. assert (s ≠ []) as Hne by (by rewrite Hs). clear Hs.
    rewrite (bool_decide_eq_false_2 (s = [])) by done.
    rewrite bytes_Buffer_Read_ident by exact Hne.
    cbn [of_pair fst snd mbind result_bind orb].
    rewrite !ident_of_lookup by (unfold EI_CLASS, EI_DATA, EI_VERSION; lia).
    rewrite magic_check. unfold ident_valid, at_.
    destruct (bool_decide (take 4 s = magic)).
    2:{ eexists. split; reflexivity. }
    rewrite fail_if_false by reflexivity.
    destruct (byte_val (s !!! EI_CLASS) =? ELFCLASS32) eqn:Hc32.
    + cbn [negb andb orb]. rewrite fail_if_false by reflexivity.
      destruct (byte_val (s !!! EI_DATA) =? ELFDATA2LSB);
        [|destruct (byte_val (s !!! EI_DATA) =? ELFDATA2MSB)];
        cbn [mbind result_bind orb andb];
        try (eexists; split; reflexivity).
      all: destruct (byte_val (s !!! EI_VERSION) =? EV_CURRENT);
        cbn [negb fail_if mbind result_bind];
        try (eexists; split; reflexivity).
      all: rewrite binary_Read32_short by (done || lia);
        eexists; split; reflexivity.
    + destruct (byte_val (s !!! EI_CLASS) =? ELFCLASS64) eqn:Hc64.
      2:{ eexists. split; reflexivity. }
      cbn [negb andb orb]. rewrite fail_if_false by reflexivity.
      destruct (byte_val (s !!! EI_DATA) =? ELFDATA2LSB);
        [|destruct (byte_val (s !!! EI_DATA) =? ELFDATA2MSB)];
        cbn [mbind result_bind orb andb];
        try (eexists; split; reflexivity).
      all: destruct (byte_val (s !!! EI_VERSION) =? EV_CURRENT);
        cbn [negb fail_if mbind result_bind];
        try (eexists; split; reflexivity).
      all: rewrite binary_Read64_short by (done || lia);
        eexists; split; reflexivity.
  - intros Hlen Hmagic.
    assert (stream r ≠ []) as Hne by (intros Hs; rewrite Hs in Hlen; discriminate).
    unfold ValidateHeader, ValidateHeader_run.
    rewrite (io_LimitReader_long r 64), take_ge by lia.
    cbn [io_ReadAll stream broken fmap option_fmap option_map of_pair fst snd
         mbind result_bind].
    rewrite bytes_Buffer_Read_ident by exact Hne.
    cbn [of_pair fst snd mbind result_bind].
    rewrite !ident_of_lookup by (unfold EI_CLASS, EI_DATA, EI_VERSION; lia).
    rewrite magic_check, bool_decide_eq_false_2 by done.
    rewrite fail_if_true by reflexivity.
    rewrite ident_of_take by lia. reflexivity.
Qed.

Lemma ValidateHeader_short_or_bad_magic_witness :
  (∃ e, ValidateHeader (bytes_NewReader [x41]) = Some e ∧ is_FormatError e = true) ∧
  ValidateHeader (bytes_NewReader bad_magic_bytes)
    = Some (fmt_Errorf "invalid magic number, %s" [ABytes [x4d; x5a; x4c; x46]]).
Proof.
  split.
  - apply (proj1 (ValidateHeader_short_or_bad_magic (bytes_NewReader [x41]))).
    simpl. lia.
  - apply (proj2 (ValidateHeader_short_or_bad_magic (bytes_NewReader bad_magic_bytes)));
      [reflexivity|discriminate].
Defined.

(** ** ValidateHeader: dependence on the input *)

Lemma ValidateHeader_limit (r : Reader) :
  ValidateHeader r = ValidateHeader (io_LimitReader r 64).
Proof.
  unfold ValidateHeader, ValidateHeader_run. by rewrite io_LimitReader_idemp.
Qed.

(** C9.  The verdict is a function of the bytes of the stream, and of no
    more than the first 64 of them: two streams that agree on their first
    64 bytes (and, when shorter than that, end in the same way) get the
    same result, nil or the same error. *)
Theorem ValidateHeader_first_64_bytes (r1 r2 : Reader) :
  take 64 (stream r1) = take 64 (stream r2) →
  ((length (stream r1) < 64)%nat → broken r1 = broken r2) →
  ValidateHeader r1 = ValidateHeader r2.
Proof.
  intros Htake Hend.
  rewrite (ValidateHeader_limit r1), (ValidateHeader_limit r2). f_equal.
  pose proof (f_equal length Htake) as Hlen. rewrite !length_take in Hlen.
  destruct (decide (64 ≤ length (stream r1))%nat) as [Hl|Hl].
  - rewrite !io_LimitReader_long by lia. by rewrite Htake.
  - rewrite !io_LimitReader_short by lia.
    rewrite !take_ge in Htake by lia.
    destruct r1, r2; simpl in *. rewrite Htake, Hend by lia. done.
Qed.

Lemma ValidateHeader_first_64_bytes_witness :
  ValidateHeader (bytes_NewReader (header64_bytes x03 x02))
  = ValidateHeader (mkReader (header64_bytes x03 x02 ++ [x41; x42]) (Some "reset")).
Proof.
  apply ValidateHeader_first_64_bytes; [reflexivity|].
  simpl. lia.
Defined.

(** * Further properties of the detectors *)

(** X1.  [dwarfSuffix] strips one of the three prefixes and nothing else: the
    suffix of prefix + k is k; a non-empty suffix, put back behind some
    prefix, is the name; a name with none of the prefixes has the empty
    suffix. *)
Theorem dwarfSuffix_strips (s : elf_Section) :
  (∀ p k, p ∈ debug_prefixes → Name s = p +:+ k → dwarfSuffix s = k) ∧
  (dwarfSuffix s ≠ "" → ∃ p, p ∈ debug_prefixes ∧ Name s = p +:+ dwarfSuffix s) ∧
  ((∀ p k, p ∈ debug_prefixes → Name s ≠ p +:+ k) → dwarfSuffix s = "").
Proof.
  split_and!.
  - intros p k Hp Hn. unfold dwarfSuffix. rewrite Hn. unfold debug_prefixes in Hp.
    list_cases Hp.
    + by rewrite (strings_HasPrefix_app ".debug_"), (slice_from_app ".debug_").
    + change (strings_HasPrefix (".zdebug_" +:+ k) ".debug_") with false.
      by rewrite (strings_HasPrefix_app ".zdebug_"), (slice_from_app ".zdebug_").
    + change (strings_HasPrefix ("__debug_" +:+ k) ".debug_") with false.
      change (strings_HasPrefix ("__debug_" +:+ k) ".zdebug_") with false.
      by rewrite (strings_HasPrefix_app "__debug_"), (slice_from_app "__debug_").
  - unfold dwarfSuffix.
    destruct (strings_HasPrefix (Name s) ".debug_") eqn:H1;
      [|destruct (strings_HasPrefix (Name s) ".zdebug_") eqn:H2;
        [|destruct (strings_HasPrefix (Name s) "__debug_") eqn:H3]]; intros Hne.
    + exists ".debug_". split; [in_list|by apply (strings_HasPrefix_inv ".debug_")].
    + exists ".zdebug_". split; [in_list|by apply (strings_HasPrefix_inv ".zdebug_")].
    + exists "__debug_". split; [in_list|by apply (strings_HasPrefix_inv "__debug_")].
    + done.
  - intros Hno. unfold dwarfSuffix.
    destruct (strings_HasPrefix (Name s) ".debug_") eqn:H1;
      [|destruct (strings_HasPrefix (Name s) ".zdebug_") eqn:H2;
        [|destruct (strings_HasPrefix (Name s) "__debug_") eqn:H3]]; [..|done].
    + destruct (Hno ".debug_" (slice_from 7 (Name s))); [in_list|].
      by apply (strings_HasPrefix_inv ".debug_").
    + destruct (Hno ".zdebug_" (slice_from 8 (Name s))); [in_list|].
      by apply (strings_HasPrefix_inv ".zdebug_").
    + destruct (Hno "__debug_" (slice_from 8 (Name s))); [in_list|].
      by apply (strings_HasPrefix_inv "__debug_").
Qed.

(** X2.  [readableDWARFSections] never fails; the set it returns holds exactly
    the kinds, among the five, that some SHT_PROGBITS section of the file
    carries as suffix, so it has at most five elements however many
    sections the file has. *)
Theorem readableDWARFSections_kinds (f : elf_File) :
  ∃ X : gset string,
    readableDWARFSections f = Ok X ∧
    (∀ k, k ∈ X ↔ k ∈ dwarf_kinds ∧
                  ∃ s, s ∈ Sections f ∧ dwarfSuffix s = k ∧ SType s = SHT_PROGBITS) ∧
    (size X ≤ 5)%nat.
Proof.
  eexists. split; [reflexivity|].
  assert (∀ k, k ∈ foldl readableDWARFSections_step ∅ (Sections f) ↔
               k ∈ dwarf_kinds ∧
               ∃ s, s ∈ Sections f ∧ dwarfSuffix s = k ∧ SType s = SHT_PROGBITS) as Hel.
  { intros k. rewrite readableDWARFSections_fold_elem. split.
    - intros [Hk|(s & ? & -> & ? & ?)]; [by apply elem_of_empty in Hk|].
      split; [done|]. by exists s.
    - intros (Hk & s & ? & <- & ?). right. by exists s. }
  split; [exact Hel|].
  change 5%nat with (length dwarf_kinds).
  rewrite <- (size_list_to_set (C := gset string) dwarf_kinds).
  - apply subseteq_size. intros k Hk. apply elem_of_list_to_set. by apply Hel in Hk as [? _].
  - unfold dwarf_kinds. repeat (apply NoDup_cons; split; [|]); try apply NoDup_nil_2.
    all: intros Hin; list_cases Hin; discriminate.
Qed.

Lemma HasDWARF_open (fs : FileSystem) (path : string) (f : elf_File) :
  elf_Open fs path = Ok f →
  HasDWARF fs path
    = (bool_decide (0 < size (foldl readableDWARFSections_step ∅ (Sections f)))%nat, None).
Proof. intros Hopen. unfold HasDWARF. by rewrite Hopen. Qed.

Lemma HasDWARF_true (fs : FileSystem) (path : string) (f : elf_File) :
  elf_Open fs path = Ok f →
  (HasDWARF fs path).1 = true ↔ ∃ s, s ∈ Sections f ∧ is_DWARF_section s.
Proof.
  intros Hopen. rewrite (HasDWARF_open fs path f Hopen). simpl.
  rewrite bool_decide_eq_true. apply readableDWARFSections_nonempty.
Qed.

Lemma HasSymbols_true (fs : FileSystem) (path : string) (f : elf_File) :
  elf_Open fs path = Ok f →
  (HasSymbols fs path).1 = true ↔
  ∃ s, s ∈ Sections f ∧ (SType s = SHT_SYMTAB ∨ SType s = SHT_DYNSYM).
Proof.
  intros Hopen. unfold HasSymbols. rewrite Hopen. simpl.
  rewrite existsb_elem_of. by setoid_rewrite orb_true_iff; setoid_rewrite Z.eqb_eq.
Qed.

Lemma IsGoObjFile_true (fs : FileSystem) (path : string) (f : elf_File) :
  elf_Open fs path = Ok f →
  (IsGoObjFile fs path).1 = true ↔ has_note f.
Proof.
  intros Hopen. unfold IsGoObjFile, has_note. rewrite Hopen. simpl.
  rewrite existsb_elem_of. by setoid_rewrite String.eqb_eq.
Qed.

Lemma detector_no_error (fs : FileSystem) (path : string) (f : elf_File) :
  elf_Open fs path = Ok f →
  (HasDWARF fs path).2 = None ∧ (HasSymbols fs path).2 = None ∧ (IsGoObjFile fs path).2 = None.
Proof.
  intros Hopen. unfold HasDWARF, HasSymbols, IsGoObjFile. by rewrite Hopen.
Qed.

Lemma pair_eta_bool (p : bool * option error) (b : bool) :
  p.1 = b → p.2 = None → p = (b, None).
Proof. destruct p; simpl; by intros -> ->. Qed.

(** X3.  Adding sections never takes a positive verdict away: if every section
    of one file is a section of another, each of [HasDWARF], [HasSymbols]
    and [IsGoObjFile] that returns true for the first returns true for the
    second. *)
Theorem detectors_monotone (fs fs' : FileSystem) (path path' : string) (f f' : elf_File) :
  elf_Open fs path = Ok f →
  elf_Open fs' path' = Ok f' →
  (∀ s, s ∈ Sections f → s ∈ Sections f') →
  (HasDWARF fs path = (true, None) → HasDWARF fs' path' = (true, None)) ∧
  (HasSymbols fs path = (true, None) → HasSymbols fs' path' = (true, None)) ∧
  (IsGoObjFile fs path = (true, None) → IsGoObjFile fs' path' = (true, None)).
Proof.
  intros Hopen Hopen' Hsub.
  destruct (detector_no_error fs' path' f' Hopen') as (Hd & Hs & Hg).
  split_and!; intros Ht; apply (f_equal fst) in Ht; simpl in Ht;
    (apply pair_eta_bool; [|done]).
  - apply (HasDWARF_true _ _ _ Hopen) in Ht as (s & ? & ?).
    apply (HasDWARF_true _ _ _ Hopen'). exists s. auto.
  - apply (HasSymbols_true _ _ _ Hopen) in Ht as (s & ? & ?).
    apply (HasSymbols_true _ _ _ Hopen'). exists s. auto.
  - apply (IsGoObjFile_true _ _ _ Hopen) in Ht as (s & ? & ?).
    apply (IsGoObjFile_true _ _ _ Hopen'). exists s. auto.
Qed.

Lemma detectors_monotone_witness :
  HasSymbols (one_file (mkFile (mkSection ".debug_info" SHT_PROGBITS :: Sections dynsym_file)
                               (Err elf_ErrNoSymbols))) "a.out" = (true, None).
Proof.
  apply (detectors_monotone (one_file dynsym_file) _ "a.out" "a.out" dynsym_file
           (mkFile (mkSection ".debug_info" SHT_PROGBITS :: Sections dynsym_file)
                   (Err elf_ErrNoSymbols))); [reflexivity|reflexivity| |reflexivity].
  intros s Hs. by apply list_elem_of_further.
Defined.

Lemma bool_iff_eq (a b : bool) : (a = true ↔ b = true) → a = b.
Proof. destruct a, b; intuition congruence. Qed.

(** X4.  The order of the sections, and how often one occurs, does not matter
    to [HasDWARF], [HasSymbols] and [IsGoObjFile]: two files with the same
    sections in any order get the same results. *)
Theorem detectors_order_irrelevant (fs fs' : FileSystem) (path path' : string)
    (f f' : elf_File) :
  elf_Open fs path = Ok f →
  elf_Open fs' path' = Ok f' →
  (∀ s, s ∈ Sections f ↔ s ∈ Sections f') →
  HasDWARF fs path = HasDWARF fs' path' ∧
  HasSymbols fs path = HasSymbols fs' path' ∧
  IsGoObjFile fs path = IsGoObjFile fs' path'.
Proof.
  intros Hopen Hopen' Hsame.
  destruct (detector_no_error fs path f Hopen) as (Hd & Hs & Hg).
  destruct (detector_no_error fs' path' f' Hopen') as (Hd' & Hs' & Hg').
  split_and!.
  - rewrite (surjective_pairing (HasDWARF fs path)),
            (surjective_pairing (HasDWARF fs' path')), Hd, Hd'. f_equal.
    apply bool_iff_eq.
    rewrite (HasDWARF_true _ _ _ Hopen), (HasDWARF_true _ _ _ Hopen').
    by setoid_rewrite Hsame.
  - rewrite (surjective_pairing (HasSymbols fs path)),
            (surjective_pairing (HasSymbols fs' path')), Hs, Hs'. f_equal.
    apply bool_iff_eq.
    rewrite (HasSymbols_true _ _ _ Hopen), (HasSymbols_true _ _ _ Hopen').
    by setoid_rewrite Hsame.
  - rewrite (surjective_pairing (IsGoObjFile fs path)),
            (surjective_pairing (IsGoObjFile fs' path')), Hg, Hg'. f_equal.
    apply bool_iff_eq.
    rewrite (IsGoObjFile_true _ _ _ Hopen), (IsGoObjFile_true _ _ _ Hopen').
    unfold has_note. by setoid_rewrite Hsame.
Qed.

Lemma detectors_order_irrelevant_witness :
  HasDWARF (one_file debug_info_file) "a.out"
  = HasDWARF (one_file (mkFile (reverse (Sections debug_info_file)) (Ok []))) "a.out".
Proof.
  apply (detectors_order_irrelevant (one_file debug_info_file) _ "a.out" "a.out"
           debug_info_file (mkFile (reverse (Sections debug_info_file)) (Ok [])));
    [reflexivity|reflexivity|].
  intros s. simpl. by rewrite elem_of_reverse.
Defined.

(** X5.  When the file does not open, every detector returns false with the
    error of [elf.Open] wrapped as "failed to open elf", and [ValidateFile]
    returns that error as it is. *)
Theorem open_failure (fs : FileSystem) (path : string) (e : error) :
  elf_Open fs path = Err e →
  HasDWARF fs path = (false, Some (fmt_Errorf_w "failed to open elf: %w" e)) ∧
  IsSymbolizableGoObjFile fs path = (false, Some (fmt_Errorf_w "failed to open elf: %w" e)) ∧
  IsGoObjFile fs path = (false, Some (fmt_Errorf_w "failed to open elf: %w" e)) ∧
  HasSymbols fs path = (false, Some (fmt_Errorf_w "failed to open elf: %w" e)) ∧
  ValidateFile fs path = Some e.
Proof.
  intros Hopen.
  unfold HasDWARF, IsSymbolizableGoObjFile, IsGoObjFile, HasSymbols, ValidateFile.
  by rewrite Hopen.
Qed.

Lemma open_failure_witness :
  HasDWARF (one_file empty_file) "b.out"
    = (false, Some (fmt_Errorf_w "failed to open elf: %w" (lib_error "no such file"))) ∧
  IsSymbolizableGoObjFile (one_file empty_file) "b.out"
    = (false, Some (fmt_Errorf_w "failed to open elf: %w" (lib_error "no such file"))) ∧
  IsGoObjFile (one_file empty_file) "b.out"
    = (false, Some (fmt_Errorf_w "failed to open elf: %w" (lib_error "no such file"))) ∧
  HasSymbols (one_file empty_file) "b.out"
    = (false, Some (fmt_Errorf_w "failed to open elf: %w" (lib_error "no such file"))) ∧
  ValidateFile (one_file empty_file) "b.out" = Some (lib_error "no such file").
Proof. apply (open_failure (one_file empty_file) "b.out"). reflexivity. Defined.

Lemma IsSymbolizableGoObjFile_cases (fs : FileSystem) (path : string) (f : elf_File) :
  elf_Open fs path = Ok f →
  (has_note f ∧ IsSymbolizableGoObjFile fs path = gopclntab_verdict f) ∨
  (¬ has_note f ∧ ∃ e, elf_Symbols f = Err e ∧
     IsSymbolizableGoObjFile fs path
       = (false, Some (fmt_Errorf_w "failed to read symbols: %w" e))) ∨
  (¬ has_note f ∧ ∃ syms, elf_Symbols f = Ok syms ∧
     IsSymbolizableGoObjFile fs path
       = if existsb is_go_symbol syms then gopclntab_verdict f else (false, None)).
Proof.
  intros Hopen. destruct (has_buildid_note f) eqn:Hnote.
  - apply has_buildid_note_true in Hnote. left. split; [done|].
    exact (IsSymbolizableGoObjFile_note fs path f Hopen Hnote).
  - apply has_buildid_note_false in Hnote. right.
    destruct (elf_Symbols f) as [syms|e] eqn:Hsym.
    + right. split; [done|]. exists syms. split; [done|].
      exact (IsSymbolizableGoObjFile_symbols fs path f Hopen syms Hnote Hsym).
    + left. split; [done|]. exists e. split; [done|].
      exact (IsSymbolizableGoObjFile_unreadable fs path f Hopen e Hnote Hsym).
Qed.

Lemma gopclntab_verdict_true (f : elf_File) :
  gopclntab_verdict f = (true, None) ↔ first_gopclntab_loaded f.
Proof.
  split; [|apply gopclntab_verdict_loaded].
  unfold gopclntab_verdict, first_gopclntab_loaded.
  destruct (elf_File_Section f ".gopclntab") as [sec|]; [|discriminate].
  destruct (Z.eqb_spec (SType sec) SHT_PROGBITS); [|discriminate].
  intros _. by exists sec.
Qed.

Lemma gopclntab_verdict_not_false_nil (f : elf_File) : gopclntab_verdict f ≠ (false, None).
Proof.
  unfold gopclntab_verdict.
  destruct (elf_File_Section f ".gopclntab") as [sec|]; [|discriminate].
  by destruct (SType sec =? SHT_PROGBITS).
Qed.

Lemma has_go_symbol_existsb (f : elf_File) (syms : list elf_Symbol) :
  elf_Symbols f = Ok syms → has_go_symbol f ↔ existsb is_go_symbol syms = true.
Proof.
  intros Hsym. unfold has_go_symbol. rewrite existsb_elem_of. split.
  - intros (syms' & sym & Hs & Hin & Hname). rewrite Hsym in Hs. injection Hs as <-.
    exists sym. by rewrite is_go_symbol_true.
  - intros (sym & Hin & Hgo). exists syms, sym. by rewrite <- is_go_symbol_true.
Qed.

(** X6.  [IsSymbolizableGoObjFile] returns (true, nil) exactly when the file
    opens, is classified as produced by the Go toolchain (by the note
    section, or else by one of the three symbols), and its first section
    named ".gopclntab" has type SHT_PROGBITS. *)
Theorem IsSymbolizableGoObjFile_true_iff (fs : FileSystem) (path : string) :
  IsSymbolizableGoObjFile fs path = (true, None) ↔
  ∃ f, elf_Open fs path = Ok f ∧ toolchain_produced f ∧ first_gopclntab_loaded f.
Proof.
  split.
  - destruct (elf_Open fs path) as [f|e] eqn:Hopen.
    2:{ unfold IsSymbolizableGoObjFile. rewrite Hopen. discriminate. }
    intros Ht. exists f. split; [done|].
    destruct (IsSymbolizableGoObjFile_cases fs path f Hopen)
      as [[Hn Heq]|[(Hn & e & He & Heq)|(Hn & syms & Hs & Heq)]]; rewrite Heq in Ht.
    + split; [by left|]. by apply gopclntab_verdict_true.
    + discriminate.
    + destruct (existsb is_go_symbol syms) eqn:Hex; [|discriminate].
      split; [right; by apply (has_go_symbol_existsb f syms)|].
      by apply gopclntab_verdict_true.
  - intros (f & Hopen & Hp & Hl).
    destruct (IsSymbolizableGoObjFile_cases fs path f Hopen)
      as [[Hn Heq]|[(Hn & e & He & Heq)|(Hn & syms & Hs & Heq)]]; rewrite Heq.
    + by apply gopclntab_verdict_loaded.
    + destruct Hp as [?|(syms & ? & Hs & _)]; [done|]. rewrite He in Hs. discriminate.
    + destruct Hp as [?|Hp]; [done|].
      apply (has_go_symbol_existsb f syms Hs) in Hp. rewrite Hp.
      by apply gopclntab_verdict_loaded.
Qed.

(** X7.  [IsSymbolizableGoObjFile] returns (false, nil) exactly when the file
    opens, has no section named ".note.go.buildid", its symbols can be
    read, and none of them has one of the three names. *)
Theorem IsSymbolizableGoObjFile_false_nil_iff (fs : FileSystem) (path : string) :
  IsSymbolizableGoObjFile fs path = (false, None) ↔
  ∃ f syms, elf_Open fs path = Ok f ∧ ¬ has_note f ∧ elf_Symbols f = Ok syms ∧
            ∀ sym, sym ∈ syms → SymName sym ∉ go_symbol_names.
Proof.
  split.
  - destruct (elf_Open fs path) as [f|e] eqn:Hopen.
    2:{ unfold IsSymbolizableGoObjFile. rewrite Hopen. discriminate. }
    intros Ht.
    destruct (IsSymbolizableGoObjFile_cases fs path f Hopen)
      as [[Hn Heq]|[(Hn & e & He & Heq)|(Hn & syms & Hs & Heq)]]; rewrite Heq in Ht.
    + by destruct (gopclntab_verdict_not_false_nil f).
    + discriminate.
    + destruct (existsb is_go_symbol syms) eqn:Hex.
      { by destruct (gopclntab_verdict_not_false_nil f). }
      exists f, syms. split_and!; try done.
      intros sym Hin Hname. apply is_go_symbol_true in Hname.
      assert (existsb is_go_symbol syms = true) as Hex'
        by (apply existsb_elem_of; by exists sym).
      by rewrite Hex' in Hex.
  - intros (f & syms & Hopen & Hn & Hs & Hnone).
    rewrite (IsSymbolizableGoObjFile_symbols fs path f Hopen syms Hn Hs).
    destruct (existsb is_go_symbol syms) eqn:Hex; [|done].
    apply existsb_elem_of in Hex as (sym & Hin & Hgo%is_go_symbol_true).
    by destruct (Hnone sym Hin).
Qed.

(** X8.  A file that [IsGoObjFile] recognises is never reported by
    [IsSymbolizableGoObjFile] as "not a Go file": the result is (true, nil)
    or the not-symbolizable error, whatever its symbols. *)
Theorem IsGoObjFile_then_symbolizable_or_error (fs : FileSystem) (path : string) :
  IsGoObjFile fs path = (true, None) →
  IsSymbolizableGoObjFile fs path = (true, None) ∨
  IsSymbolizableGoObjFile fs path = (false, Some NotSymbolizableError).
Proof.
  intros Hgo. destruct (elf_Open fs path) as [f|e] eqn:Hopen.
  2:{ unfold IsGoObjFile in Hgo. rewrite Hopen in Hgo. discriminate. }
  apply (f_equal fst) in Hgo. simpl in Hgo.
  apply (IsGoObjFile_true fs path f Hopen) in Hgo.
  rewrite (IsSymbolizableGoObjFile_note fs path f Hopen Hgo).
  unfold gopclntab_verdict.
  destruct (elf_File_Section f ".gopclntab") as [sec|]; [|by right].
  destruct (SType sec =? SHT_PROGBITS); [by left|by right].
Qed.

Lemma IsGoObjFile_then_symbolizable_or_error_witness :
  IsSymbolizableGoObjFile (one_file (go_note_file (Ok []))) "a.out" = (true, None) ∨
  IsSymbolizableGoObjFile (one_file (go_note_file (Ok []))) "a.out"
    = (false, Some NotSymbolizableError).
Proof.
  apply (IsGoObjFile_then_symbolizable_or_error (one_file (go_note_file (Ok []))) "a.out").
  reflexivity.
Defined.

Lemma elf_Symbols_Ok_symtab (f : elf_File) (syms : list elf_Symbol) :
  elf_Symbols f = Ok syms → ∃ s, s ∈ Sections f ∧ SType s = SHT_SYMTAB.
Proof.
  unfold elf_Symbols, elf_File_SectionByType.
  destruct (list_find _ _) as [[i s]|] eqn:Hfind; [|discriminate].
  intros _. apply list_find_Some in Hfind as (Hi & Ht & _).
  exists s. split; [by eapply list_elem_of_lookup_2|done].
Qed.

(** X9.  When [IsGoObjFile] says no and [IsSymbolizableGoObjFile] returns
    without error, the symbols were read, so the file has a symbol table
    and [HasSymbols] returns true.  (Read the other way: for a file without
    the note and without symbol sections, [IsSymbolizableGoObjFile] can
    only return an error.) *)
Theorem symbolizable_without_note_has_symbols (fs : FileSystem) (path : string) (b : bool) :
  IsGoObjFile fs path = (false, None) →
  IsSymbolizableGoObjFile fs path = (b, None) →
  HasSymbols fs path = (true, None).
Proof.
  intros Hgo Hsy. destruct (elf_Open fs path) as [f|e] eqn:Hopen.
  2:{ unfold IsGoObjFile in Hgo. rewrite Hopen in Hgo. discriminate. }
  assert (¬ has_note f) as Hn.
  { intros Hn%(IsGoObjFile_true fs path f Hopen). rewrite Hgo in Hn. discriminate. }
  destruct (IsSymbolizableGoObjFile_cases fs path f Hopen)
    as [[Hn' _]|[(_ & e & He & Heq)|(_ & syms & Hs & _)]]; [done| |].
  { rewrite Heq in Hsy. discriminate. }
  apply elf_Symbols_Ok_symtab in Hs as (s & Hin & Ht).
  apply pair_eta_bool; [|by apply (detector_no_error fs path f Hopen)].
  apply (HasSymbols_true fs path f Hopen). exists s. auto.
Qed.

Lemma symbolizable_without_note_has_symbols_witness :
  HasSymbols (one_file go_symbol_file) "a.out" = (true, None).
Proof.
  apply (symbolizable_without_note_has_symbols (one_file go_symbol_file) "a.out" true);
    reflexivity.
Defined.

Lemma open_failure_cases (fs : FileSystem) (path : string) (e : error) :
  elf_Open fs path = Err e →
  (HasDWARF fs path).1 = false ∧ (HasSymbols fs path).1 = false ∧
  (IsGoObjFile fs path).1 = false ∧ (IsSymbolizableGoObjFile fs path).1 = false.
Proof.
  intros Hopen. unfold HasDWARF, IsSymbolizableGoObjFile, IsGoObjFile, HasSymbols.
  by rewrite Hopen.
Qed.

(** X10.  A positive verdict of any detector implies that [ValidateFile] accepts
    the file: a file for which [HasDWARF], [HasSymbols], [IsGoObjFile] or
    [IsSymbolizableGoObjFile] returns true opens and has sections. *)
Theorem positive_verdict_valid_file (fs : FileSystem) (path : string) :
  (HasDWARF fs path).1 = true ∨ (HasSymbols fs path).1 = true ∨
  (IsGoObjFile fs path).1 = true ∨ (IsSymbolizableGoObjFile fs path).1 = true →
  ValidateFile fs path = None.
Proof.
  intros Hpos. destruct (elf_Open fs path) as [f|e] eqn:Hopen.
  2:{ destruct (open_failure_cases fs path e Hopen) as (H1 & H2 & H3 & H4).
      rewrite H1, H2, H3, H4 in Hpos. simpl in Hpos. by destruct Hpos as [?|[?|[?|?]]]. }
  assert (∃ s, s ∈ Sections f) as [s Hs].
  { destruct Hpos as [H|[H|[H|H]]].
    - destruct (proj1 (HasDWARF_true fs path f Hopen) H) as (s & ? & _). by exists s.
    - destruct (proj1 (HasSymbols_true fs path f Hopen) H) as (s & ? & _). by exists s.
    - destruct (proj1 (IsGoObjFile_true fs path f Hopen) H) as (s & ? & _). by exists s.
    - destruct (IsSymbolizableGoObjFile_cases fs path f Hopen)
        as [[Hn Heq]|[(Hn & e & He & Heq)|(Hn & syms & Hsy & Heq)]];
        rewrite Heq in H; [| discriminate H |].
      + destruct Hn as (s & ? & _). by exists s.
      + destruct (existsb is_go_symbol syms); [|discriminate H].
        apply elf_Symbols_Ok_symtab in Hsy as (s & ? & _). by exists s. }
  unfold ValidateFile. rewrite Hopen.
  destruct (Sections f); [by apply elem_of_nil in Hs|done].
Qed.

Lemma positive_verdict_valid_file_witness :
  ValidateFile (one_file debug_info_file) "a.out" = None.
Proof.
  apply (positive_verdict_valid_file (one_file debug_info_file) "a.out").
  left. reflexivity.
Defined.

(** * Further properties of ValidateHeader *)

Lemma Uint16_range (o : ByteOrder) (b : list byte) : 0 ≤ Uint16 o b < 2 ^ 16.
Proof.
  destruct o; unfold Uint16.
  - exact (lor_shiftl_range _ _ 8 8 ltac:(lia) ltac:(lia) (at_range b 0) (at_range b 1)).
  - exact (lor_shiftl_range _ _ 8 8 ltac:(lia) ltac:(lia) (at_range b 1) (at_range b 0)).
Qed.

Lemma int64_eqb_zero (v : Z) : 0 ≤ v < 2 ^ 64 → (int64 v =? 0) = (v =? 0).
Proof.
  intros Hv. pose proof (int64_zero v Hv) as Hz.
  destruct (Z.eqb_spec (int64 v) 0), (Z.eqb_spec v 0); tauto.
Qed.

Lemma at_take (s : list byte) (n i : nat) : (i < n)%nat → at_ (take n s) i = at_ s i.
Proof.
  intros Hi. unfold at_. f_equal. by rewrite !list_lookup_total_alt, lookup_take_lt.
Qed.

Lemma binary_Read32_ge (b : list byte) (o : ByteOrder) :
  (52 ≤ length b)%nat →
  binary_Read32 (io_LimitReader (bytes_NewReader b) 52) o
    = Ok (decode_Header32 o (take Header32_size b)).
Proof.
  intros Hl. rewrite io_LimitReader_long by (simpl; lia).
  unfold binary_Read32, io_ReadFull, Header32_size. simpl.
  rewrite decide_True by (rewrite length_take; lia). simpl.
  by rewrite take_take, Nat.min_id.
Qed.

Lemma binary_Read64_ge (b : list byte) (o : ByteOrder) :
  (64 ≤ length b)%nat →
  binary_Read64 (bytes_NewReader b) o = Ok (decode_Header64 o (take Header64_size b)).
Proof.
  intros Hl. unfold binary_Read64, io_ReadFull, Header64_size. simpl.
  by rewrite decide_True by lia.
Qed.

(** The run, once the bytes are read, is the staged verdict on them. *)
Lemma ValidateHeader_staged (r : Reader) (b : list byte) :
  io_ReadAll (io_LimitReader r 64) = (b, None) →
  b ≠ [] →
  ValidateHeader r = staged_verdict b.
Proof.
  intros Hrd Hne. unfold ValidateHeader, ValidateHeader_run. rewrite Hrd.
  cbn [of_pair fst snd mbind result_bind].
  rewrite bytes_Buffer_Read_ident by exact Hne.
  cbn [of_pair fst snd mbind result_bind].
  rewrite !ident_of_lookup by (unfold EI_CLASS, EI_DATA, EI_VERSION; lia).
  rewrite magic_check. unfold staged_verdict, ident_error, at_.
  destruct (bool_decide (take 4 b = magic)); [|reflexivity].
  rewrite fail_if_false by reflexivity. cbn [negb].
  unfold header_fields, at_.
  set (c := byte_val (b !!! EI_CLASS)). set (d := byte_val (b !!! EI_DATA)).
  set (v := byte_val (b !!! EI_VERSION)). clearbody c d v.
  assert (∀ o, byte_order_of d = o →
    match
      fail_if (negb (v =? EV_CURRENT)) (fmt_Errorf "unknown ELF version, %s" [AVersion v])
      ≫= λ _ : (),
        (if c =? ELFCLASS32
         then hdr ← binary_Read32 (io_LimitReader (bytes_NewReader b) 52) o;
              fail_if (negb (elf_Version (Version32 hdr) =? v))
                (fmt_Errorf "invalid ELF version, %s"
                   [AVersion (elf_Version (Version32 hdr))]);;
              Ok (Shoff32 hdr, Shnum32 hdr, Shstrndx32 hdr)
         else if c =? ELFCLASS64
         then hdr ← binary_Read64 (bytes_NewReader b) o;
              fail_if (negb (elf_Version (Version64 hdr) =? v))
                (fmt_Errorf "invalid ELF version, %s"
                   [AVersion (elf_Version (Version64 hdr))]);;
              Ok (int64 (Shoff64 hdr), Shnum64 hdr, Shstrndx64 hdr)
         else Ok (0, 0, 0))
        ≫= λ '(shoff, shnum, shstrndx),
          fail_if ((shoff =? 0) && negb (shnum =? 0))
            (fmt_Errorf "invalid ELF file, shoff is 0 but shnum is %d" [AInt shnum]);;
          fail_if ((0 <? shnum) && (shnum <=? shstrndx))
            (fmt_Errorf "invalid ELF file, shstrndx is %d but shnum is %d"
               [AInt shstrndx; AInt shnum]);;
          fail_if (shnum <=? 0) (fmt_Errorf "elf file has no sections" []);;
          Ok ()
    with
    | Ok _ => None
    | Err e => Some e
    end =
    match
      (if negb (v =? EV_CURRENT)
       then Some (fmt_Errorf "unknown ELF version, %s" [AVersion v]) else None)
    with
    | Some e => Some e
    | None =>
        if decide (length b < header_size c)%nat then Some io_ErrUnexpectedEOF
        else header_rules
               (if c =? ELFCLASS32
                then (Version32 (decode_Header32 (byte_order_of d) (take Header32_size b)),
                      Shoff32 (decode_Header32 (byte_order_of d) (take Header32_size b)),
                      Shnum32 (decode_Header32 (byte_order_of d) (take Header32_size b)),
                      Shstrndx32 (decode_Header32 (byte_order_of d) (take Header32_size b)))
                else (Version64 (decode_Header64 (byte_order_of d) (take Header64_size b)),
                      Shoff64 (decode_Header64 (byte_order_of d) (take Header64_size b)),
                      Shnum64 (decode_Header64 (byte_order_of d) (take Header64_size b)),
                      Shstrndx64 (decode_Header64 (byte_order_of d) (take Header64_size b))))
    end ∨ (negb (c =? ELFCLASS32) && negb (c =? ELFCLASS64) = true)) as Hrest.
  { intros o ->.
    destruct (Z.eqb_spec c ELFCLASS32) as [->|Hc32];
      [|destruct (Z.eqb_spec c ELFCLASS64) as [->|Hc64]]; [| |by right]; left.
    - destruct (Z.eqb_spec v EV_CURRENT) as [->|Hv]; [|reflexivity].
      cbn [negb]. rewrite fail_if_false by reflexivity.
      unfold header_size. change (ELFCLASS32 =? ELFCLASS32) with true. cbv iota.
      destruct (decide (length b < Header32_size)%nat) as [Hl|Hl]; unfold Header32_size in Hl.
      { by rewrite binary_Read32_short by (done || lia). }
      rewrite binary_Read32_ge by lia. cbn [mbind result_bind].
      set (h := decode_Header32 _ _). clearbody h. unfold header_rules.
      destruct (elf_Version (Version32 h) =? EV_CURRENT);
        cbn [negb fail_if mbind result_bind]; [|reflexivity].
      destruct ((Shoff32 h =? 0) && negb (Shnum32 h =? 0));
        cbn [fail_if mbind result_bind]; [reflexivity|].
      destruct ((0 <? Shnum32 h) && (Shnum32 h <=? Shstrndx32 h));
        cbn [fail_if mbind result_bind]; [reflexivity|].
      by destruct (Shnum32 h <=? 0).
    - destruct (Z.eqb_spec v EV_CURRENT) as [->|Hv]; [|reflexivity].
      cbn [negb]. rewrite fail_if_false by reflexivity.
      unfold header_size. change (ELFCLASS64 =? ELFCLASS32) with false.
      change (ELFCLASS64 =? ELFCLASS64) with true. cbv iota.
      destruct (decide (length b < Header64_size)%nat) as [Hl|Hl]; unfold Header64_size in Hl.
      { by rewrite binary_Read64_short by (done || lia). }
      rewrite binary_Read64_ge by lia. cbn [mbind result_bind].
      set (h := decode_Header64 _ _). unfold header_rules.
      destruct (elf_Version (Version64 h) =? EV_CURRENT);
        cbn [negb fail_if mbind result_bind]; [|reflexivity].
      rewrite (int64_eqb_zero (Shoff64 h)) by apply Uint64_range. clearbody h.
      destruct ((Shoff64 h =? 0) && negb (Shnum64 h =? 0));
        cbn [fail_if mbind result_bind]; [reflexivity|].
      destruct ((0 <? Shnum64 h) && (Shnum64 h <=? Shstrndx64 h));
        cbn [fail_if mbind result_bind]; [reflexivity|].
      by destruct (Shnum64 h <=? 0). }
  destruct (negb (c =? ELFCLASS32) && negb (c =? ELFCLASS64)) eqn:Hc; [reflexivity|].
  rewrite fail_if_false by reflexivity.
  unfold byte_order_of in *.
  destruct (Z.eqb_spec d ELFDATA2LSB) as [->|Hd1].
  { change (ELFDATA2LSB =? ELFDATA2MSB) with false in *. cbn [negb andb mbind result_bind].
    destruct (Hrest LittleEndian eq_refl) as [H|H]; [exact H|discriminate H]. }
  destruct (Z.eqb_spec d ELFDATA2MSB) as [->|Hd2]; cbn [negb andb mbind result_bind];
    [|reflexivity].
  destruct (Hrest BigEndian eq_refl) as [H|H]; [exact H|discriminate H].
Qed.

Lemma io_ReadAll_limit (r : Reader) :
  broken r = None ∨ (64 ≤ length (stream r))%nat →
  io_ReadAll (io_LimitReader r 64) = (take 64 (stream r), None).
Proof.
  intros Hok. destruct (decide (64 ≤ length (stream r))%nat) as [Hl|Hl].
  - by rewrite io_LimitReader_long.
  - destruct Hok as [Hb|?]; [|lia]. rewrite io_LimitReader_short by lia.
    unfold io_ReadAll. rewrite Hb. by rewrite take_ge by lia.
Qed.

Lemma ident_of_take64 (s : list byte) : ident_of (take 64 s) = ident_of s.
Proof.
  unfold ident_of. rewrite take_take, length_take.
  replace (16 `min` 64)%nat with 16%nat by lia. do 2 f_equal. lia.
Qed.

Lemma ident_error_take (s : list byte) : ident_error (take 64 s) = ident_error s.
Proof.
  unfold ident_error. rewrite ident_of_take64, take_take.
  rewrite !at_take by (unfold EI_CLASS, EI_DATA, EI_VERSION; lia).
  by replace (4 `min` 64)%nat with 4%nat by lia.
Qed.

Lemma header_fields_take (s : list byte) : header_fields (take 64 s) = header_fields s.
Proof.
  unfold header_fields, Header32_size, Header64_size. rewrite !take_take.
  rewrite !at_take by (unfold EI_CLASS, EI_DATA; lia).
  replace (52 `min` 64)%nat with 52%nat by lia.
  by replace (64 `min` 64)%nat with 64%nat by lia.
Qed.

Lemma header_size_le (c : Z) : (header_size c ≤ 64)%nat.
Proof. unfold header_size, Header32_size, Header64_size. destruct (c =? _); lia. Qed.

Lemma staged_verdict_take (s : list byte) : staged_verdict (take 64 s) = staged_verdict s.
Proof.
  unfold staged_verdict. rewrite ident_error_take, header_fields_take.
  rewrite at_take by (unfold EI_CLASS; lia).
  destruct (ident_error s); [done|].
  pose proof (header_size_le (at_ s EI_CLASS)). rewrite length_take.
  destruct (decide (64 `min` length s < _)%nat), (decide (length s < _)%nat); try done; lia.
Qed.

(** For a stream that is delivered without failure and is not empty, the
    result is the staged verdict on the stream. *)
Lemma ValidateHeader_staged_stream (r : Reader) :
  broken r = None ∨ (64 ≤ length (stream r))%nat →
  stream r ≠ [] →
  ValidateHeader r = staged_verdict (stream r).
Proof.
  intros Hok Hne. rewrite <- staged_verdict_take.
  apply ValidateHeader_staged; [by apply io_ReadAll_limit|].
  by destruct (stream r).
Qed.

Lemma ident_error_None (s : list byte) : ident_error s = None ↔ ident_valid s = true.
Proof.
  unfold ident_error, ident_valid.
  destruct (bool_decide (take 4 s = magic)); cbn [negb andb]; [|done].
  destruct (at_ s EI_CLASS =? ELFCLASS32), (at_ s EI_CLASS =? ELFCLASS64);
    cbn [negb andb orb]; try done;
  destruct (at_ s EI_DATA =? ELFDATA2LSB), (at_ s EI_DATA =? ELFDATA2MSB);
    cbn [negb andb orb]; try done;
  by destruct (at_ s EI_VERSION =? EV_CURRENT).
Qed.

Lemma ident_valid_nonempty (s : list byte) : ident_valid s = true → s ≠ [].
Proof. intros Hv ->. discriminate Hv. Qed.

Lemma header_rules_None (version shoff shnum shstrndx : Z) :
  header_rules (version, shoff, shnum, shstrndx) = None ↔
  version `mod` 256 = 1 ∧ shoff ≠ 0 ∧ 0 < shnum ∧ shstrndx < shnum.
Proof.
  unfold header_rules, elf_Version, EV_CURRENT.
  destruct (Z.eqb_spec (version `mod` 256) 1), (Z.eqb_spec shoff 0), (Z.eqb_spec shnum 0),
    (Z.ltb_spec 0 shnum), (Z.leb_spec shnum shstrndx), (Z.leb_spec shnum 0);
    cbn [negb andb]; split; try done; try lia; intros (? & ? & ? & ?); lia.
Qed.

(** X11.  [ValidateHeader] returns nil exactly when the stream is delivered
    without failure, its identification is valid (magic, class 1 or 2, data
    encoding 1 or 2, version 1), it has at least the bytes of the header of
    its class (52 or 64), and the decoded fields satisfy: version equal to 1
    modulo 256 (the header's 32-bit version is compared as a byte),
    section-header offset not 0, section count positive, string-table index
    below the section count. *)
Theorem ValidateHeader_nil_iff (r : Reader) :
  ValidateHeader r = None ↔
  (broken r = None ∨ (64 ≤ length (stream r))%nat) ∧
  ident_valid (stream r) = true ∧
  (header_size (at_ (stream r) EI_CLASS) ≤ length (stream r))%nat ∧
  ∃ version shoff shnum shstrndx,
    header_fields (stream r) = (version, shoff, shnum, shstrndx) ∧
    version `mod` 256 = 1 ∧ shoff ≠ 0 ∧ 0 < shnum ∧ shstrndx < shnum.
Proof.
  split.
  - intros Hnil.
    assert (broken r = None ∨ (64 ≤ length (stream r))%nat) as Hok.
    { destruct (decide (64 ≤ length (stream r))%nat) as [?|Hl]; [by right|left].
      destruct (broken r) as [msg|] eqn:Hb; [|done].
      unfold ValidateHeader, ValidateHeader_run in Hnil.
      rewrite io_LimitReader_short in Hnil by lia.
      unfold io_ReadAll in Hnil. rewrite Hb in Hnil. discriminate Hnil. }
    assert (stream r ≠ []) as Hne.
    { intros Hs. unfold ValidateHeader, ValidateHeader_run in Hnil.
      rewrite (io_ReadAll_limit r Hok), Hs in Hnil. discriminate Hnil. }
    rewrite (ValidateHeader_staged_stream r Hok Hne) in Hnil.
    unfold staged_verdict in Hnil.
    destruct (ident_error (stream r)) eqn:Hid; [discriminate|].
    apply ident_error_None in Hid.
    destruct (decide _) as [?|Hl] in Hnil; [discriminate|].
    destruct (header_fields (stream r)) as [[[version shoff] shnum] shstrndx].
    apply header_rules_None in Hnil.
    split_and!; [done|done|lia|]. by exists version, shoff, shnum, shstrndx.
  - intros (Hok & Hid & Hl & version & shoff & shnum & shstrndx & Hf & Hrules).
    rewrite (ValidateHeader_staged_stream r Hok (ident_valid_nonempty _ Hid)).
    unfold staged_verdict. apply ident_error_None in Hid. rewrite Hid.
    rewrite decide_False by lia. rewrite Hf. by apply header_rules_None.
Qed.

Lemma ValidateHeader_nil_iff_witness :
  ValidateHeader (bytes_NewReader (header32_bytes x03 x02)) = None.
Proof.
  apply (proj2 (ValidateHeader_nil_iff (bytes_NewReader (header32_bytes x03 x02)))).
  split_and!; [by left|reflexivity|vm_compute; lia|].
  exists 1, 512, 3, 2. split_and!; [reflexivity|reflexivity|lia|lia|lia].
Defined.

Lemma ident_error_not_read (s : list byte) (e : error) :
  ident_error s = Some e → is_ReadError e = false.
Proof.
  unfold ident_error. repeat (destruct (_ : bool); [by intros [= <-]|]). discriminate.
Qed.

Lemma header_rules_not_read (fields : Z * Z * Z * Z) (e : error) :
  header_rules fields = Some e → is_ReadError e = false.
Proof.
  destruct fields as [[[version shoff] shnum] shstrndx]. unfold header_rules.
  repeat (destruct (_ : bool); [by intros [= <-]|]). discriminate.
Qed.

(** X12.  A stream of 64 bytes that ends with [io.EOF], or of more than 64
    bytes however it ends, never gets a read error: the result is nil or
    an error about the content, as the reader is not read beyond the 64th
    byte. *)
Theorem ValidateHeader_full_stream_no_read_error (r : Reader) (e : error) :
  (64 ≤ length (stream r))%nat →
  broken r = None ∨ (64 < length (stream r))%nat →
  ValidateHeader r = Some e →
  is_ReadError e = false.
Proof.
  intros Hl _ He.
  rewrite ValidateHeader_staged_stream in He;
    [|by right|intros Hs; rewrite Hs in Hl; simpl in Hl; lia].
  unfold staged_verdict in He.
  destruct (ident_error (stream r)) as [e'|] eqn:Hid.
  { injection He as <-. by eapply ident_error_not_read. }
  pose proof (header_size_le (at_ (stream r) EI_CLASS)).
  rewrite decide_False in He by lia. by eapply header_rules_not_read.
Qed.

Lemma ValidateHeader_full_stream_no_read_error_witness :
  is_ReadError (fmt_Errorf "invalid ELF file, shstrndx is %d but shnum is %d"
                  [AInt 3; AInt 3]) = false.
Proof.
  apply (ValidateHeader_full_stream_no_read_error
           (mkReader (header64_bytes x03 x03 ++ [x41]) (Some "reset")));
    [simpl; lia|right; simpl; lia|reflexivity].
Defined.

(** X13.  A failure of the reader before the 64th byte is returned as it is,
    whatever the bytes delivered before it. *)
Theorem ValidateHeader_reader_failure (r : Reader) (msg : string) :
  broken r = Some msg →
  (length (stream r) < 64)%nat →
  ValidateHeader r = Some (lib_error msg).
Proof.
  intros Hb Hl. unfold ValidateHeader, ValidateHeader_run.
  rewrite io_LimitReader_short by lia. unfold io_ReadAll. by rewrite Hb.
Qed.

Lemma ValidateHeader_reader_failure_witness :
  ValidateHeader (mkReader (take 60 (header64_bytes x03 x02)) (Some "reset"))
    = Some (lib_error "reset").
Proof. apply ValidateHeader_reader_failure; [reflexivity|simpl; lia]. Defined.

(** X14.  For a stream of class ELFCLASS32 that is read without a failure
    of the reader (it ends with [io.EOF], or has more than 64 bytes), only
    the first 52 bytes count: with at least 52 bytes, the result is that
    of the stream cut to 52 bytes. *)
Theorem ValidateHeader_class32_prefix (r : Reader) :
  at_ (stream r) EI_CLASS = ELFCLASS32 →
  (52 ≤ length (stream r))%nat →
  broken r = None ∨ (64 < length (stream r))%nat →
  ValidateHeader r = ValidateHeader (bytes_NewReader (take 52 (stream r))).
Proof.
  intros Hc Hl Hok'.
  assert (broken r = None ∨ (64 ≤ length (stream r))%nat) as Hok
    by (destruct Hok'; [by left|right; lia]).
  assert (stream r ≠ []) as Hne by (intros Hs; rewrite Hs in Hl; simpl in Hl; lia).
  rewrite (ValidateHeader_staged_stream r Hok Hne).
  rewrite (ValidateHeader_staged_stream (bytes_NewReader (take 52 (stream r))));
    [|by left|simpl; by destruct (stream r)].
  cbn [stream bytes_NewReader]. set (s := stream r) in *.
  unfold staged_verdict, ident_error, header_fields, header_size.
  rewrite !at_take by (unfold EI_CLASS, EI_DATA, EI_VERSION; lia). rewrite Hc.
  change (ELFCLASS32 =? ELFCLASS32) with true. cbv iota.
  rewrite !take_take, length_take. unfold Header32_size.
  replace (4 `min` 52)%nat with 4%nat by lia.
  replace (52 `min` 52)%nat with 52%nat by lia.
  assert (take 4 (ident_of (take 52 s)) = take 4 (ident_of s)) as ->.
  { rewrite !ident_of_take by (rewrite ?length_take; lia).
    rewrite take_take. f_equal. }
  rewrite (decide_False (P := (52 `min` length s < 52)%nat)) by lia.
  by rewrite (decide_False (P := (length s < 52)%nat)) by lia.
Qed.

Lemma ValidateHeader_class32_prefix_witness :
  ValidateHeader (bytes_NewReader (header32_bytes x03 x02 ++ [x41; x42; x43]))
  = ValidateHeader (bytes_NewReader (take 52 (header32_bytes x03 x02 ++ [x41; x42; x43]))).
Proof.
  apply (ValidateHeader_class32_prefix
           (bytes_NewReader (header32_bytes x03 x02 ++ [x41; x42; x43])));
    [reflexivity|simpl; lia|by left].
Defined.

Lemma header_fields_range (s : list byte) (version shoff shnum shstrndx : Z) :
  header_fields s = (version, shoff, shnum, shstrndx) →
  0 ≤ shnum < 2 ^ 16 ∧ 0 ≤ shstrndx < 2 ^ 16.
Proof.
  unfold header_fields. destruct (_ =? _); intros [= <- <- <- <-]; split; apply Uint16_range.
Qed.

(** X15.  The checks on the decoded fields, for either class and either byte
    order.  For a stream delivered without failure, with a valid
    identification and the bytes of its header: a header version that is
    not 1 modulo 256 gives the version error; otherwise a section count of
    0 gives "no sections" whatever the offset and the index; otherwise a
    zero section-header offset gives the offset error whatever the index;
    otherwise a string-table index not below the section count gives the
    index error. *)
Theorem ValidateHeader_field_errors (r : Reader) (version shoff shnum shstrndx : Z) :
  broken r = None ∨ (64 ≤ length (stream r))%nat →
  ident_valid (stream r) = true →
  (header_size (at_ (stream r) EI_CLASS) ≤ length (stream r))%nat →
  header_fields (stream r) = (version, shoff, shnum, shstrndx) →
  (version `mod` 256 ≠ 1 →
     ValidateHeader r
       = Some (fmt_Errorf "invalid ELF version, %s" [AVersion (version `mod` 256)])) ∧
  (version `mod` 256 = 1 → shnum = 0 →
     ValidateHeader r = Some (fmt_Errorf "elf file has no sections" [])) ∧
  (version `mod` 256 = 1 → shnum ≠ 0 → shoff = 0 →
     ValidateHeader r
       = Some (fmt_Errorf "invalid ELF file, shoff is 0 but shnum is %d" [AInt shnum])) ∧
  (version `mod` 256 = 1 → shnum ≠ 0 → shoff ≠ 0 → shnum ≤ shstrndx →
     ValidateHeader r
       = Some (fmt_Errorf "invalid ELF file, shstrndx is %d but shnum is %d"
                 [AInt shstrndx; AInt shnum])).
Proof.
  intros Hok Hid Hl Hf.
  rewrite (ValidateHeader_staged_stream r Hok (ident_valid_nonempty _ Hid)).
  unfold staged_verdict. apply ident_error_None in Hid. rewrite Hid.
  rewrite decide_False by lia. rewrite Hf.
  destruct (header_fields_range _ _ _ _ _ Hf) as [Hn Hx].
  unfold header_rules, elf_Version, EV_CURRENT.
  destruct (Z.eqb_spec (version `mod` 256) 1), (Z.eqb_spec shoff 0), (Z.eqb_spec shnum 0),
    (Z.ltb_spec 0 shnum), (Z.leb_spec shnum shstrndx), (Z.leb_spec shnum 0);
    cbn [negb andb]; split_and!; intros; try done; lia.
Qed.

Lemma ValidateHeader_field_errors_witness :
  ValidateHeader (bytes_NewReader (header32_bytes x00 x00))
    = Some (fmt_Errorf "elf file has no sections" []) ∧
  ValidateHeader (bytes_NewReader (header32_bytes x02 x05))
    = Some (fmt_Errorf "invalid ELF file, shstrndx is %d but shnum is %d" [AInt 5; AInt 2]).
Proof.
  split.
  - apply (ValidateHeader_field_errors (bytes_NewReader (header32_bytes x00 x00)) 1 512 0 0);
      [by left|reflexivity|vm_compute; lia|reflexivity|reflexivity|reflexivity].
  - apply (ValidateHeader_field_errors (bytes_NewReader (header32_bytes x02 x05)) 1 512 2 5);
      [by left|reflexivity|vm_compute; lia|reflexivity|reflexivity|lia|lia|lia].
Defined.

(** X16.  The identification checks, for a stream of any length that is
    delivered without failure and is not empty: the first of magic, class,
    data encoding and version that is wrong decides the error, and nothing
    behind the identification is looked at. *)
Theorem ValidateHeader_ident_errors (r : Reader) :
  broken r = None ∨ (64 ≤ length (stream r))%nat →
  stream r ≠ [] →
  (take 4 (stream r) ≠ magic →
     ValidateHeader r
       = Some (fmt_Errorf "invalid magic number, %s"
                 [ABytes (take 4 (ident_of (stream r)))])) ∧
  (take 4 (stream r) = magic →
   at_ (stream r) EI_CLASS ≠ ELFCLASS32 → at_ (stream r) EI_CLASS ≠ ELFCLASS64 →
     ValidateHeader r
       = Some (fmt_Errorf "unknown ELF class, %s" [AClass (at_ (stream r) EI_CLASS)])) ∧
  (take 4 (stream r) = magic →
   at_ (stream r) EI_CLASS = ELFCLASS32 ∨ at_ (stream r) EI_CLASS = ELFCLASS64 →
   at_ (stream r) EI_DATA ≠ ELFDATA2LSB → at_ (stream r) EI_DATA ≠ ELFDATA2MSB →
     ValidateHeader r
       = Some (fmt_Errorf "unknown ELF data encoding, %s"
                 [AData (at_ (stream r) EI_DATA)])) ∧
  (take 4 (stream r) = magic →
   at_ (stream r) EI_CLASS = ELFCLASS32 ∨ at_ (stream r) EI_CLASS = ELFCLASS64 →
   at_ (stream r) EI_DATA = ELFDATA2LSB ∨ at_ (stream r) EI_DATA = ELFDATA2MSB →
   at_ (stream r) EI_VERSION ≠ EV_CURRENT →
     ValidateHeader r
       = Some (fmt_Errorf "unknown ELF version, %s"
                 [AVersion (at_ (stream r) EI_VERSION)])).
Proof.
  intros Hok Hne. rewrite (ValidateHeader_staged_stream r Hok Hne).
  unfold staged_verdict, ident_error.
  split_and!.
  - intros Hm. by rewrite bool_decide_eq_false_2.
  - intros Hm Hc1 Hc2. rewrite bool_decide_eq_true_2 by done.
    apply Z.eqb_neq in Hc1, Hc2. by rewrite Hc1, Hc2.
  - intros Hm Hc Hd1 Hd2. rewrite bool_decide_eq_true_2 by done.
    apply Z.eqb_neq in Hd1, Hd2. rewrite Hd1, Hd2.
    by destruct Hc as [-> | ->].
  - intros Hm Hc Hd Hv. rewrite bool_decide_eq_true_2 by done.
    apply Z.eqb_neq in Hv. rewrite Hv.
    by destruct Hc as [-> | ->], Hd as [-> | ->].
Qed.

Lemma ValidateHeader_ident_errors_witness :
  ValidateHeader (bytes_NewReader [x7f; x45; x4c; x46; x03])
    = Some (fmt_Errorf "unknown ELF class, %s" [AClass 3]).
Proof.
  destruct (ValidateHeader_ident_errors (bytes_NewReader [x7f; x45; x4c; x46; x03]))
    as (_ & H & _); [by left|done|].
  apply H; [reflexivity|discriminate|discriminate].
Defined.

Lemma take_lookup_total_eq (s1 s2 : list byte) (n i : nat) :
  take n s1 = take n s2 → (i < n)%nat → at_ s1 i = at_ s2 i.
Proof.
  intros Ht Hi. by rewrite <- (at_take s1 n i), <- (at_take s2 n i), Ht.
Qed.

(** X17.  Of a stream of 64 bytes or more, only the first seven bytes and the
    four decoded fields (version, section-header offset, section count,
    string-table index) matter: two such streams that agree on these get
    the same result, whatever their type, machine, entry point, program
    headers, flags and sizes. *)
Theorem ValidateHeader_relevant_bytes (r1 r2 : Reader) :
  (64 ≤ length (stream r1))%nat →
  (64 ≤ length (stream r2))%nat →
  take 7 (stream r1) = take 7 (stream r2) →
  header_fields (stream r1) = header_fields (stream r2) →
  ValidateHeader r1 = ValidateHeader r2.
Proof.
  intros Hl1 Hl2 Ht Hf.
  rewrite (ValidateHeader_staged_stream r1), (ValidateHeader_staged_stream r2);
    [|by right|intros Hs; rewrite Hs in Hl2; simpl in Hl2; lia
     |by right|intros Hs; rewrite Hs in Hl1; simpl in Hl1; lia].
  unfold staged_verdict, ident_error. rewrite Hf.
  rewrite !(take_lookup_total_eq _ _ 7 _ Ht)
    by (unfold EI_CLASS, EI_DATA, EI_VERSION; lia).
  rewrite !ident_of_take by lia.
  assert (take 4 (stream r1) = take 4 (stream r2)) as ->.
  { apply (f_equal (take 4)) in Ht. by rewrite !take_take in Ht. }
  pose proof (header_size_le (at_ (stream r2) EI_CLASS)).
  rewrite (decide_False (P := (length (stream r1) < _)%nat)) by lia.
  by rewrite (decide_False (P := (length (stream r2) < _)%nat)) by lia.
Qed.

Lemma ValidateHeader_relevant_bytes_witness :
  ValidateHeader (bytes_NewReader (header64_bytes x03 x02))
  = ValidateHeader (bytes_NewReader
      (take 16 (header64_bytes x03 x02) ++ [x03; x00; xb7; x00]
       ++ drop 20 (header64_bytes x03 x02))).
Proof.
  apply ValidateHeader_relevant_bytes; [simpl; lia|simpl; lia|reflexivity|reflexivity].
Defined.
